(** * Portfolio dashboard: the table builder and the portfolio aggregator

    A shallow embedding of [src/pol.py]:

    - [process_stock_data] (the table builder) turns the [results] array of
      an aggregates payload into a date-indexed frame sorted by its index;
    - [calculate_portfolio_performance] and [calculate_combined_volume] (the
      aggregator) rebase every frame of a symbol dictionary on its first row,
      intersect the indexes, and emit one weighted sum per common date.

    Numbers are IEEE-754 binary64 values, taken from the Standard Library's
    executable specification [SpecFloat] (precision 53, [emax] 1024), so the
    rounding, the signed zeros, the infinities and the NaN of the pandas
    computation are all part of the model.  Frames are objects: the symbol
    dictionary holds references into a heap, [df.copy()] allocates, and a
    column assignment overwrites the object it is applied to. *)

From Stdlib Require Import ZArith Lia.
From Stdlib Require Import Floats.SpecFloat.
From stdpp Require Import gmap sorting list strings pretty.

Local Open Scope Z_scope.

(* ===================================================================== *)
(** * Binary64 arithmetic *)
(* ===================================================================== *)

Module F64.

Definition prec : Z := 53.
Definition emax : Z := 1024.

Definition t : Type := spec_float.

Definition add : t → t → t := SFadd prec emax.
Definition mul : t → t → t := SFmul prec emax.
Definition div : t → t → t := SFdiv prec emax.

(** Conversion of a Python [int] (exact below [2^53] in magnitude). *)
Definition of_Z (z : Z) : t := binary_normalize prec emax z 0 false.

Definition zero : t := S754_zero false.
Definition nan : t := S754_nan.
Definition one : t := of_Z 1.
Definition hundred : t := of_Z 100.

(** [2^n] as a normalised double, for [n] in the normal exponent range. *)
Definition pow2 (n : Z) : t := S754_finite false 4503599627370496 (n - 52).

Definition is_finite_nonzero (x : t) : bool :=
  match x with S754_finite _ _ _ => true | _ => false end.

(** Finite in the IEEE sense: a zero or a finite non-zero number. *)
Definition is_finite (x : t) : bool :=
  match x with S754_finite _ _ _ | S754_zero _ => true | _ => false end.

Definition is_nan (x : t) : bool :=
  match x with S754_nan => true | _ => false end.

Global Instance t_eq_dec : EqDecision t.
Proof. solve_decision. Defined.

End F64.

Declare Scope f64_scope.
Delimit Scope f64_scope with f64.
Infix "+" := F64.add : f64_scope.
Infix "*" := F64.mul : f64_scope.
Infix "/" := F64.div : f64_scope.

(* ===================================================================== *)
(** * Data model *)
(* ===================================================================== *)

(** One daily bar: the six value columns of a frame row. *)
Record Bar : Type := mkBar {
  open : F64.t;
  high : F64.t;
  low : F64.t;
  close : F64.t;
  volume : F64.t;
  vwap : F64.t
}.

Inductive column : Type := Open | High | Low | Close | Volume | Vwap.

Definition get_col (c : column) (b : Bar) : F64.t :=
  match c with
  | Open => open b | High => high b | Low => low b
  | Close => close b | Volume => volume b | Vwap => vwap b
  end.

Definition set_col (c : column) (v : F64.t) (b : Bar) : Bar :=
  match c with
  | Open => mkBar v (high b) (low b) (close b) (volume b) (vwap b)
  | High => mkBar (open b) v (low b) (close b) (volume b) (vwap b)
  | Low => mkBar (open b) (high b) v (close b) (volume b) (vwap b)
  | Close => mkBar (open b) (high b) (low b) v (volume b) (vwap b)
  | Volume => mkBar (open b) (high b) (low b) (close b) v (vwap b)
  | Vwap => mkBar (open b) (high b) (low b) (close b) (volume b) v
  end.

(** An index label: the bar's timestamp, in milliseconds since the epoch.
    [pd.to_datetime(_, unit='ms')] is an order embedding of these integers,
    so a label is kept as the integer it comes from. *)
Abbreviation Timestamp := Z (only parsing).

(** A frame: its rows in positional order, each with its index label. *)
Abbreviation DataFrame := (list (Z * Bar)) (only parsing).

(** [df.index] *)
Definition index (df : DataFrame) : list Timestamp := df.*1.

(** [df[c]], as the list of its values in positional order *)
Definition column_values (c : column) (df : DataFrame) : list F64.t :=
  get_col c <$> df.*2.

(** The aggregator's output: one [(date, value)] row per date. *)
Abbreviation CompositeSeries := (list (Z * F64.t)) (only parsing).

(** A Python [dict]: keys in insertion order. *)
Abbreviation dict V := (list (string * V)) (only parsing).

Fixpoint dict_get {V} (k : string) (d : dict V) : option V :=
  match d with
  | [] => None
  | (k', v) :: d' => if decide (k' = k) then Some v else dict_get k d'
  end.

(** [d[k] = v]: overwrite in place, or append a new key. *)
Fixpoint dict_set {V} (k : string) (v : V) (d : dict V) : dict V :=
  match d with
  | [] => [(k, v)]
  | (k', v') :: d' =>
      if decide (k' = k) then (k, v) :: d' else (k', v') :: dict_set k v d'
  end.

Definition keys {V} (d : dict V) : list string := d.*1.
Definition values {V} (d : dict V) : list V := d.*2.

(* ===================================================================== *)
(** * Exceptions, results and the heap monad *)
(* ===================================================================== *)

Inductive exn : Type :=
| IndexError (msg : string)
| KeyError (msg : string)
| TypeError (msg : string)
| OutOfBoundsDatetime (msg : string).

Global Instance exn_eq_dec : EqDecision exn.
Proof. solve_decision. Defined.

Definition message (e : exn) : string :=
  match e with
  | IndexError m | KeyError m | TypeError m | OutOfBoundsDatetime m => m
  end.

(** What a call does: it returns, it raises, or it leaves the fragment of
    pandas embedded here ([NonScalar]: a [.loc[label, column]] on a label
    that occurs more than once is a [Series], not a number). *)
Inductive result (A : Type) : Type :=
| Returns (a : A)
| Raises (e : exn)
| NonScalar.
Arguments Returns {A} a.
Arguments Raises {A} e.
Arguments NonScalar {A}.

Abbreviation ref := nat (only parsing).
Abbreviation heap := (gmap nat DataFrame) (only parsing).

(** A computation reads and extends the heap, and hands the heap back
    whatever its result. *)
Definition M (A : Type) : Type := heap → result A * heap.

Global Instance M_ret : MRet M := λ A a h, (Returns a, h).
Global Instance M_bind : MBind M := λ A B f m h,
  match m h with
  | (Returns a, h') => f a h'
  | (Raises e, h') => (Raises e, h')
  | (NonScalar, h') => (NonScalar, h')
  end.

Definition raise {A} (e : exn) : M A := λ h, (Raises e, h).
Definition non_scalar {A} : M A := λ h, (NonScalar, h).

(** Reading through a reference.  A Python reference always points to a live
    object; the model of a dangling one is the empty frame. *)
Definition deref (r : ref) : M DataFrame := λ h, (Returns (default [] (h !! r)), h).

(** [df.copy()]: a new object with the same rows. *)
Definition copy (r : ref) : M ref := λ h,
  let r' := fresh (dom h) in (Returns r', <[r' := default [] (h !! r)]> h).

(** [df[c] = vs], for a list of values aligned with the rows of [df]. *)
Definition assign (c : column) (vs : list F64.t) (df : DataFrame) : DataFrame :=
  zip_with (λ row v, (row.1, set_col c v row.2)) df vs.

Definition setitem (r : ref) (c : column) (vs : list F64.t) : M unit := λ h,
  (Returns (), <[r := assign c vs (default [] (h !! r))]> h).

(** A [for] loop threading its loop-carried variables. *)
Fixpoint for_each {A S} (xs : list A) (body : A → S → M S) (s : S) : M S :=
  match xs with
  | [] => mret s
  | x :: xs' => s' ← body x s; for_each xs' body s'
  end.

(* ===================================================================== *)
(** * The table builder: [process_stock_data] *)
(* ===================================================================== *)

(** One element of the payload's [results] array, under its short keys. *)
Record RawBar : Type := mkRawBar {
  raw_c : F64.t;
  raw_v : F64.t;
  raw_t : Z;
  raw_o : F64.t;
  raw_h : F64.t;
  raw_l : F64.t;
  raw_vw : F64.t
}.

(** The payload: its [results] array, when it has one. *)
Record Payload : Type := mkPayload { results : option (list RawBar) }.

(** The [rename] of line 26 together with [set_index('date')]: the row of a
    raw bar, labelled by its timestamp. *)
Definition to_row (r : RawBar) : Timestamp * Bar :=
  (raw_t r, mkBar (raw_o r) (raw_h r) (raw_l r) (raw_c r) (raw_v r) (raw_vw r)).

(** [pd.to_datetime(_, unit='ms')] stores nanoseconds in 64 bits and
    rejects a timestamp that does not fit. *)
Definition in_datetime_range (ms : Z) : bool :=
  bool_decide (- (2 ^ 63 - 1) ≤ ms * 1000000 ≤ 2 ^ 63 - 1).

Definition label_le (r1 r2 : Timestamp * Bar) : Prop := r1.1 ≤ r2.1.

Global Instance label_le_dec : RelDecision label_le.
Proof. intros r1 r2. unfold label_le. apply _. Defined.

(** [df.sort_index()]: the rows in ascending label order.  (The order pandas
    leaves among rows of one label is not fixed by its default sort; nothing
    below depends on the order this model gives them.) *)
Definition sort_index (df : DataFrame) : DataFrame := merge_sort label_le df.

Definition process_stock_data (data : Payload) : result DataFrame :=
  match results data with
  | None => Raises (KeyError "results")
  | Some [] => Raises (KeyError "date")
  | Some rs =>
      if forallb in_datetime_range (raw_t <$> rs)
      then Returns (sort_index (to_row <$> rs))
      else Raises (OutOfBoundsDatetime "cannot convert input with unit 'ms'")
  end.

(* ===================================================================== *)
(** * The aggregator *)
(* ===================================================================== *)

(** [series.iloc[0]] *)
Definition iloc0 (vs : list F64.t) : M F64.t :=
  match vs with
  | [] => raise (IndexError "single positional indexer is out-of-bounds")
  | v :: _ => mret v
  end.

(** The rows of [df] labelled [date]. *)
Definition rows_at (date : Timestamp) (df : DataFrame) : list Bar :=
  (filter (λ row, row.1 = date) df).*2.

(** [df.loc[date, c]]: the value of the one row labelled [date]; a
    [KeyError] (on the label) when there is none. *)
Definition loc (date : Timestamp) (c : column) (df : DataFrame) : M F64.t :=
  match rows_at date df with
  | [] => raise (KeyError "date")
  | [b] => mret (get_col c b)
  | _ :: _ :: _ => non_scalar
  end.

(** [set(df.index)] *)
Definition index_set (df : DataFrame) : gset Timestamp := list_to_set (index df).

(** Python's [weight / 100] on an integer percentage: the quotient of the two
    integers as a double (both convert exactly below [2^53] in magnitude). *)
Definition weight_fraction (weight : Z) : F64.t := (F64.of_Z weight / F64.hundred)%f64.

(** [(series / first) * 100], element by element *)
Definition rebase_values (first : F64.t) (vs : list F64.t) : list F64.t :=
  (λ v, (v / first) * F64.hundred)%f64 <$> vs.

Section Aggregator.

(** The two operations differ in the column they read and overwrite. *)
Variable field : column.

(** Lines 44-48 (70-74): the dictionary of rebased copies. *)
Definition normalize_all (stock_data_dict : dict ref) : M (dict ref) :=
  for_each stock_data_dict (λ '(symbol, df) normalized_dfs,
    normalized_df ← copy df;
    d ← deref df;
    first ← iloc0 (column_values field d);
    _ ← setitem normalized_df field (rebase_values first (column_values field d));
    mret (dict_set symbol normalized_df normalized_dfs)) [].

(** Lines 50-55 (76-81): the running intersection of the indexes. *)
Definition intersect_all (normalized_dfs : dict ref) : M (option (gset Timestamp)) :=
  for_each (values normalized_dfs) (λ df common_dates,
    d ← deref df;
    mret (match common_dates with
          | None => Some (index_set d)
          | Some s => Some (s ∩ index_set d)
          end)) None.

(** Line 57 (83): [sorted(list(common_dates))] *)
Definition sorted_list (common_dates : option (gset Timestamp)) : M (list Timestamp) :=
  match common_dates with
  | None => raise (TypeError "'NoneType' object is not iterable")
  | Some s => mret (merge_sort Z.le (elements s))
  end.

(** Lines 61-63 (87-89): the weighted sum at one date.  The accumulator
    starts as the integer [0], which the first [+=] converts to [+0.0]. *)
Definition weighted_value (normalized_dfs : dict ref) (weights : dict Z)
    (date : Timestamp) : M F64.t :=
  for_each weights (λ '(symbol, weight) value,
    match dict_get symbol normalized_dfs with
    | None => raise (KeyError symbol)
    | Some df =>
        d ← deref df;
        x ← loc date field d;
        mret (value + x * weight_fraction weight)%f64
    end) F64.zero.

(** Lines 59-64 (85-90): one row per common date. *)
Definition weighted_rows (normalized_dfs : dict ref) (weights : dict Z)
    (common_dates : list Timestamp) : M CompositeSeries :=
  for_each common_dates (λ date portfolio_values,
    value ← weighted_value normalized_dfs weights date;
    mret (portfolio_values ++ [(date, value)])) [].

(** Line 66 (92): [pd.DataFrame(rows).set_index('date')].  A frame built
    from an empty list has no columns, so it has no ['date'] to index by. *)
Definition frame_indexed_by_date (rows : CompositeSeries) : M CompositeSeries :=
  match rows with
  | [] => raise (KeyError "None of ['date'] are in the columns")
  | _ :: _ => mret rows
  end.

Definition aggregate (stock_data_dict : dict ref) (weights : dict Z) : M CompositeSeries :=
  normalized_dfs ← normalize_all stock_data_dict;
  common_dates ← intersect_all normalized_dfs;
  common_dates ← sorted_list common_dates;
  portfolio_values ← weighted_rows normalized_dfs weights common_dates;
  frame_indexed_by_date portfolio_values.

End Aggregator.

Definition calculate_portfolio_performance : dict ref → dict Z → M CompositeSeries :=
  aggregate Close.

Definition calculate_combined_volume : dict ref → dict Z → M CompositeSeries :=
  aggregate Volume.

(** ** Running the aggregator on frames given by value *)

(** A heap holding the given frames at references [0], [1], ... *)
Definition heap_of (dfs : list DataFrame) : heap := map_seq 0 dfs.

Definition refs_of {V} (d : dict V) : dict ref :=
  zip (keys d) (seq 0 (length d)).

(** The result of a call on a symbol dictionary whose frames are fresh
    objects. *)
Definition run (f : dict ref → dict Z → M CompositeSeries)
    (seriesMap : dict DataFrame) (weights : dict Z) : result CompositeSeries :=
  (f (refs_of seriesMap) weights (heap_of (values seriesMap))).1.

Definition bar_of (c : column) (v : F64.t) : Bar :=
  set_col c v (mkBar F64.nan F64.nan F64.nan F64.nan F64.nan F64.nan).

Definition series_of (c : column) (rows : list (Timestamp * Z)) : DataFrame :=
  (λ '(d, v), (d, bar_of c (F64.of_Z v))) <$> rows.

(* ===================================================================== *)
(** * The aggregator on frames given by value *)
(* ===================================================================== *)

(** The frame a reference denotes, and the symbol dictionary by value. *)
Definition frame (h : heap) (r : ref) : DataFrame := default [] (h !! r).

Definition frames (h : heap) (d : dict ref) : dict DataFrame :=
  prod_map id (frame h) <$> d.

(** Step 1 in the words of the specification: every value of the chosen
    field divided by the value in the first row, times 100. *)
Definition rebased (c : column) (df : DataFrame) : DataFrame :=
  match df with
  | [] => []
  | (_, b0) :: _ =>
      (λ row, (row.1, set_col c ((get_col c row.2 / get_col c b0) * F64.hundred)%f64 row.2))
        <$> df
  end.

(** The value of field [c] in the row of [df] labelled [date]. *)
Definition value_at (c : column) (df : DataFrame) (date : Timestamp) : F64.t :=
  default F64.nan (get_col c <$> head (rows_at date df)).

Definition first_value (c : column) (df : DataFrame) : F64.t :=
  default F64.nan (head (column_values c df)).

(** [rebasedValue(symbol, date)] *)
Definition rebased_value (c : column) (seriesMap : dict DataFrame)
    (symbol : string) (date : Timestamp) : F64.t :=
  match dict_get symbol seriesMap with
  | Some df => ((value_at c df date / first_value c df) * F64.hundred)%f64
  | None => F64.nan
  end.

(** The sum of [rebasedValue * (weight / 100)] over the weight map, taken
    from zero in the map's order. *)
Definition weighted_sum (c : column) (seriesMap : dict DataFrame) (weights : dict Z)
    (date : Timestamp) : F64.t :=
  foldl (λ acc sw, acc + rebased_value c seriesMap sw.1 date * weight_fraction sw.2)%f64
    F64.zero weights.

(** The dates every frame of the list has. *)
Definition common_dates (dfs : list DataFrame) : gset Timestamp :=
  match dfs with
  | [] => ∅
  | df :: dfs' => foldl (λ s d, s ∩ index_set d) (index_set df) dfs'
  end.

Definition sorted_common_dates (dfs : list DataFrame) : list Timestamp :=
  merge_sort Z.le (elements (common_dates dfs)).

(** A series as the data model has it: at least one bar, labels strictly
    increasing (so unique, and the first row is the earliest date). *)
Definition is_series (df : DataFrame) : Prop :=
  df ≠ [] ∧ StronglySorted Z.lt (index df).

(** Every symbol of the weight map has a series. *)
Definition weights_covered {V} (weights : dict Z) (seriesMap : dict V) : Prop :=
  keys weights ⊆ keys seriesMap.

(* ===================================================================== *)
(** * Predicates on inputs and invariants of the loops *)
(* ===================================================================== *)

(** Every frame the dictionary refers to is a live, non-empty object. *)
Definition all_nonempty (h : heap) (d : dict ref) : Prop :=
  Forall (λ kr, frame h kr.2 ≠ []) d.

(** No frame of the dictionary has a date twice. *)
Definition unique_labels (h : heap) (d : dict ref) : Prop :=
  Forall (λ kr, NoDup (index (frame h kr.2))) d.

(** A computation that leaves every live object as it found it. *)
Definition preserving {A} (m : M A) : Prop := ∀ h : heap, h ⊆ (m h).2.

(** One step of the running intersection of the second loop. *)
Definition intersect_step (common : option (gset Z)) (d : list (Z * Bar)) : option (gset Z) :=
  match common with
  | None => Some (index_set d)
  | Some s => Some (s ∩ index_set d)
  end.

(** What the inner loop needs of a weight's symbol at a date: a rebased
    copy in the heap, of a series that has the date exactly once. *)
Definition readable (c : column) (h : heap) (normalized_dfs : dict ref)
    (seriesMap : dict (list (Z * Bar))) (date : Z) (symbol : string) : Prop :=
  ∃ r' df, dict_get symbol normalized_dfs = Some r'
         ∧ dict_get symbol seriesMap = Some df
         ∧ frame h r' = rebased c df
         ∧ NoDup (index df) ∧ date ∈ index df.

(** The rebased frame a run of the first loop leaves for [symbol]. *)
Definition rebased_frame_of (c : column) (seriesMap : dict (list (Z * Bar)))
    (symbol : string) : option (list (Z * Bar)) :=
  let '(r, h') := normalize_all c (refs_of seriesMap) (heap_of (values seriesMap)) in
  match r with
  | Returns normalized_dfs => frame h' <$> dict_get symbol normalized_dfs
  | _ => None
  end.

(** ** Intersecting before rebasing *)

(** [df] restricted to the rows dated in [s]. *)
Definition restrict (s : gset Z) (df : list (Z * Bar)) : list (Z * Bar) :=
  filter (λ row, row.1 ∈ s) df.

(** The other order, in the words of the specification: restrict every
    series to the common dates, rebase each restricted series on its first
    row, and take the weighted sum at every common date. *)
Definition intersect_then_rebase (c : column) (seriesMap : dict (list (Z * Bar)))
    (weights : dict Z) : list (Z * F64.t) :=
  let common := common_dates (values seriesMap) in
  let restricted := prod_map id (restrict common) <$> seriesMap in
  (λ d, (d, weighted_sum c restricted weights d)) <$> merge_sort Z.le (elements common).

(** A series whose first row is dated in [s]. *)
Definition starts_in (s : gset Z) (df : list (Z * Bar)) : Prop :=
  ∃ d0, head (index df) = Some d0 ∧ d0 ∈ s.

(** ** Scaling *)

(** [k·S]: every value of the field multiplied by [k]. *)
Definition scale (c : column) (k : F64.t) (df : list (Z * Bar)) : list (Z * Bar) :=
  (λ row, (row.1, set_col c (k * get_col c row.2)%f64 row.2)) <$> df.

(** The double with the mantissa of [v] and its exponent moved by [n]. *)
Definition shift (n : Z) (v : F64.t) : F64.t :=
  match v with
  | S754_finite s m e => S754_finite s m (e + n)
  | _ => v
  end.

(** A value that [2^n] scales exactly: a zero, an infinity, NaN, or a number
    with a full 53-bit mantissa whose exponent stays in range. *)
Definition scalable (n : Z) (v : F64.t) : Prop :=
  match v with
  | S754_finite _ m e => digits2_pos m = 53%positive ∧ -1074 ≤ e + n ≤ 971
  | _ => True
  end.

(** ** Invariants of a running sum *)

(** A double whose exponent, if it is finite and non-zero, is at least the
    least exponent of the format: every product is one. *)
Definition exp_ok (t : F64.t) : Prop :=
  match t with S754_finite _ _ e => -1074 ≤ e | _ => True end.

(** What every running sum started at [+0] is: not [-0], and [exp_ok]. *)
Definition nice (a : F64.t) : Prop :=
  match a with
  | S754_zero s => s = false
  | S754_finite _ _ e => -1074 ≤ e
  | _ => True
  end.

(* ===================================================================== *)
(** * Sample inputs *)
(* ===================================================================== *)

(** A = [100, 200] and B = [50, 50] on the dates 1 and 2, weighted 50/50. *)
Definition sample_A : list (Z * Bar) := series_of Close [(1, 100); (2, 200)].
Definition sample_B : list (Z * Bar) := series_of Close [(1, 50); (2, 50)].
Definition sample_seriesMap : dict (list (Z * Bar)) :=
  [("A"%string, sample_A); ("B"%string, sample_B)].
Definition sample_weights : dict Z := [("A"%string, 50); ("B"%string, 50)].
Definition sample_heap : gmap nat (list (Z * Bar)) := heap_of (values sample_seriesMap).

(** Two series with no date in common, and a weight map naming a symbol
    that has no series. *)
Definition disjoint_seriesMap (c : column) : dict (list (Z * Bar)) :=
  [("A"%string, series_of c [(1, 100)]); ("B"%string, series_of c [(2, 50)])].
Definition stray_weights : dict Z := [("A"%string, 50); ("Z"%string, 50)].

(** Two series sharing exactly the date 2. *)
Definition overlap_seriesMap : dict (list (Z * Bar)) :=
  [("A"%string, series_of Close [(1, 100); (2, 200)]);
   ("B"%string, series_of Close [(2, 50); (3, 60)])].

(** A series whose first close is 0. *)
Definition zero_first_series : list (Z * Bar) := series_of Close [(1, 0); (2, 5)].

(** A dictionary with a series of zero bars. *)
Definition empty_seriesMap : dict (list (Z * Bar)) :=
  [("A"%string, sample_A); ("B"%string, [])].

(** A payload with two bars of one timestamp, out of order. *)
Definition repeated_payload : Payload :=
  mkPayload (Some [mkRawBar (F64.of_Z 11) (F64.of_Z 900) 86400000
                     (F64.of_Z 10) (F64.of_Z 12) (F64.of_Z 9) (F64.of_Z 11);
                   mkRawBar (F64.of_Z 10) (F64.of_Z 800) 0
                     (F64.of_Z 10) (F64.of_Z 11) (F64.of_Z 9) (F64.of_Z 10);
                   mkRawBar (F64.of_Z 12) (F64.of_Z 700) 86400000
                     (F64.of_Z 11) (F64.of_Z 12) (F64.of_Z 11) (F64.of_Z 12)]).

(** A payload of three days, out of order, and the frame built from it. *)
Definition shuffled_payload : Payload :=
  mkPayload (Some [mkRawBar (F64.of_Z 11) (F64.of_Z 900) 172800000
                     (F64.of_Z 10) (F64.of_Z 12) (F64.of_Z 9) (F64.of_Z 11);
                   mkRawBar (F64.of_Z 10) (F64.of_Z 800) 0
                     (F64.of_Z 10) (F64.of_Z 11) (F64.of_Z 9) (F64.of_Z 10);
                   mkRawBar (F64.of_Z 12) (F64.of_Z 700) 86400000
                     (F64.of_Z 11) (F64.of_Z 12) (F64.of_Z 11) (F64.of_Z 12)]).

Definition shuffled_frame : list (Z * Bar) :=
  Eval vm_compute in
    match process_stock_data shuffled_payload with Returns df => df | _ => [] end.

(** One tenth, and the series [1, 3]. *)
Definition tenth : F64.t := (F64.of_Z 1 / F64.of_Z 10)%f64.
Definition one_three : list (Z * Bar) := series_of Close [(1, 1); (2, 3)].

(** A series B whose only close is 0, and weight maps without and with it. *)
Definition nan_seriesMap (c : column) : dict (list (Z * Bar)) :=
  [("A"%string, series_of c [(1, 100)]); ("B"%string, series_of c [(1, 0)])].
Definition only_A : dict Z := [("A"%string, 100)].
Definition A_and_zero_B : dict Z := [("A"%string, 100); ("B"%string, 0)].

(* ===================================================================== *)
(** * The rest of the dashboard *)
(* ===================================================================== *)

(** Every reference of the dictionary points to a live object (as every
    Python reference does). *)
Definition live (h : heap) (d : dict ref) : Prop :=
  Forall (λ kr, is_Some (h !! kr.2)) d.

(** What makes a call return: a series for every symbol with at least one
    bar each, a weight map over the symbols, and a date all series have. *)
Definition well_posed (h : heap) (d : dict ref) (weights : dict Z) : Prop :=
  d ≠ [] ∧ all_nonempty h d ∧ weights_covered weights d
  ∧ ∃ date, Forall (λ df, date ∈ index df) (values (frames h d)).

(** Two frames with the same dates and the same values in column [c]. *)
Definition agree_on (c : column) (df1 df2 : list (Z * Bar)) : Prop :=
  index df1 = index df2 ∧ column_values c df1 = column_values c df2.

(** The sample series with a volume of 7 on every bar. *)
Definition sample_heap_with_volume : gmap nat (list (Z * Bar)) :=
  heap_of ((λ df : list (Z * Bar), (λ row, (row.1, set_col Volume (F64.of_Z 7) row.2)) <$> df)
             <$> values sample_seriesMap).

(** What the fetch loop keeps true of its two dictionaries: the same keys in
    the same order, no key twice, and behind every key a live frame with at
    least one row and ascending dates. *)
Definition loaded (h : gmap nat (list (Z * Bar))) (stock_data_dict : dict ref)
    (weights : dict Z) : Prop :=
  keys weights = keys stock_data_dict
  ∧ NoDup (keys stock_data_dict)
  ∧ Forall (λ kr, ∃ df, h !! kr.2 = Some df ∧ df ≠ [] ∧ StronglySorted Z.le (index df))
      stock_data_dict.

(** A computation that reads only, and does not raise. *)
Definition quiet {A} (m : M A) (h : gmap nat (list (Z * Bar))) : Prop :=
  (m h).2 = h ∧ ∀ e, (m h).1 ≠ Raises e.

(** ** Reading a frame back *)

(** The raw bar a row comes from: [to_row] undone. *)
Definition of_row (row : Z * Bar) : RawBar :=
  mkRawBar (close row.2) (volume row.2) row.1 (open row.2) (high row.2) (low row.2)
    (vwap row.2).

(** A payload in ascending order. *)
Definition ascending_bars : list RawBar :=
  [mkRawBar (F64.of_Z 10) (F64.of_Z 800) 0
     (F64.of_Z 10) (F64.of_Z 11) (F64.of_Z 9) (F64.of_Z 10);
   mkRawBar (F64.of_Z 12) (F64.of_Z 700) 86400000
     (F64.of_Z 11) (F64.of_Z 12) (F64.of_Z 11) (F64.of_Z 12);
   mkRawBar (F64.of_Z 11) (F64.of_Z 900) 172800000
     (F64.of_Z 10) (F64.of_Z 12) (F64.of_Z 9) (F64.of_Z 11)].

(** ** The fetcher *)

(** The decoded body of a response: its [results], and its [error] text
    when it has one. *)
Record Response : Type := mkResponse { body : Payload; error : option string }.

(** Line 10: the request URL. *)
Definition request_url (symbol api_key start_date end_date : string) : string :=
  "https://api.polygon.io/v2/aggs/ticker/" +:+ symbol +:+ "/range/1/day/" +:+ start_date
    +:+ "/" +:+ end_date +:+ "?adjusted=true&sort=asc&apiKey=" +:+ api_key.

(** One selected stock of the session state. *)
Record Stock : Type := mkStock { stock_symbol : string; stock_weight : Z }.

(** [object.pop(idx)] on a list. *)
Definition pop {A} (idx : nat) (l : list A) : result (list A) :=
  if decide (idx < length l)%nat then Returns (delete idx l)
  else Raises (IndexError "pop index out of range").

(** Lines 269-270: the "Add Stock" button. *)
Definition add_stock (pressed : bool) (stocks : list Stock) : list Stock :=
  if pressed && bool_decide (length stocks < 5)%nat
  then stocks ++ [mkStock "" 0]
  else stocks.

(** Lines 280-304: every stock takes the values of its widgets; the weights
    are totalled and the indexes whose "Remove" button is pressed are
    collected, in ascending order. *)
Definition edit_stocks (selected : nat → string) (entered : nat → Z) (remove : nat → bool)
    (stocks : list Stock) : list Stock * Z * list nat :=
  foldl (λ '(edited, total_weight, stocks_to_remove) idx,
           (edited ++ [mkStock (selected idx) (entered idx)],
            total_weight + entered idx,
            if remove idx then stocks_to_remove ++ [idx] else stocks_to_remove))
    ([], 0, []) (seq 0 (length stocks)).

(** Lines 307-308: the marked stocks are popped, last index first. *)
Definition remove_marked (stocks_to_remove : list nat) (stocks : list Stock)
    : result (list Stock) :=
  foldl (λ acc idx, match acc with Returns l => pop idx l | _ => acc end)
    (Returns stocks) (reverse stocks_to_remove).

(** Lines 269-308: one run of the sidebar over the session's stocks; the
    stocks left in the session, and the total weight shown. *)
Definition sidebar_run (add_pressed : bool) (selected : nat → string) (entered : nat → Z)
    (remove : nat → bool) (stocks : list Stock) : result (list Stock * Z) :=
  let '(edited, total_weight, stocks_to_remove) :=
    edit_stocks selected entered remove (add_stock add_pressed stocks) in
  match remove_marked stocks_to_remove edited with
  | Returns stocks' => Returns (stocks', total_weight)
  | Raises e => Raises e
  | NonScalar => NonScalar
  end.

(** Allocation of a new frame object. *)
Definition alloc (df : DataFrame) : M ref := λ h,
  let r := fresh (dom h) in (Returns r, <[r := df]> h).

(** A pure result as a computation. *)
Definition lift {A} (r : result A) : M A := λ h, (r, h).

(** Line 232: the percentage change from the first to the last close. *)
Definition price_change (df : DataFrame) : result F64.t :=
  match last (column_values Close df), head (column_values Close df) with
  | Some latest, Some first =>
      Returns (SFsub F64.prec F64.emax (latest / first)%f64 F64.one * F64.hundred)%f64
  | _, _ => Raises (IndexError "single positional indexer is out-of-bounds")
  end.

(** ** The charts *)

(** The [customdata] of a trace: none, one column, or the rows of two
    columns. *)
Inductive Customdata : Type :=
| no_customdata
| one_column (vs : list F64.t)
| two_columns (rows : list (F64.t * F64.t)).

(** The data of a [go.Scatter] trace (the line style, the opacity and the
    hover template are constants of the source). *)
Record Trace : Type := mkTrace {
  trace_x : list Timestamp;
  trace_y : list F64.t;
  trace_name : string;
  trace_customdata : Customdata
}.

(** [weights[symbol]] *)
Definition getitem {V} (symbol : string) (d : dict V) : M V :=
  match dict_get symbol d with
  | Some v => mret v
  | None => raise (KeyError symbol)
  end.

(** Lines 111-125 (148-162): one trace per stock, in dictionary order. *)
Definition stock_traces (field : column) (customdata : DataFrame → Customdata)
    (stock_data_dict : dict ref) (weights : dict Z) : M (list Trace) :=
  for_each stock_data_dict (λ '(symbol, df) traces,
    d ← deref df;
    first ← iloc0 (column_values field d);
    weight ← getitem symbol weights;
    mret (traces ++ [mkTrace (index d) (rebase_values first (column_values field d))
                       (symbol +:+ " (" +:+ pretty weight +:+ "%)") (customdata d)])) [].

(** [df[['close', 'vwap']]] and [df['volume']] *)
Definition close_and_vwap (d : DataFrame) : Customdata :=
  two_columns (zip (column_values Close d) (column_values Vwap d)).

Definition volume_only (d : DataFrame) : Customdata :=
  one_column (column_values Volume d).

(** Lines 105-170 of [display_synchronized_charts]: the traces of the price
    figure and of the volume figure. *)
Definition chart_traces (stock_data_dict : dict ref) (weights : dict Z)
    (portfolio_df : CompositeSeries) : M (list Trace * list Trace) :=
  combined_volume_df ← calculate_combined_volume stock_data_dict weights;
  price ← stock_traces Close close_and_vwap stock_data_dict weights;
  volume ← stock_traces Volume volume_only stock_data_dict weights;
  mret (price ++ [mkTrace portfolio_df.*1 portfolio_df.*2 "Portfolio" no_customdata],
        volume ++ [mkTrace combined_volume_df.*1 combined_volume_df.*2 "Combined Volume"
                     no_customdata]).

(** The trace of one stock in the words of the specification: the dates of
    its series against its rebased values, named by symbol and weight. *)
Definition stock_trace (field : column) (customdata : DataFrame → Customdata)
    (h : heap) (weights : dict Z) (kr : string * ref) : Trace :=
  mkTrace (index (frame h kr.2)) (column_values field (rebased field (frame h kr.2)))
    (kr.1 +:+ " (" +:+ pretty (default 0 (dict_get kr.1 weights)) +:+ "%)")
    (customdata (frame h kr.2)).

Section Dashboard.

(** The network: the decoded JSON body that a GET of a URL answers with. *)
Variable get_json : string → Response.

(** Lines 8-19.  [inl msg]: the error shown, and [None] returned. *)
Definition fetch_stock_data (symbol api_key start_date end_date : string)
    : string + Payload :=
  let data := get_json (request_url symbol api_key start_date end_date) in
  match results (body data) with
  | None => inl ("Error fetching data for " +:+ symbol +:+ ": "
                 +:+ default "Unknown error" (error data))
  | Some _ => inr (body data)
  end.

(** Lines 329-335: the loop that fills the two dictionaries (and the errors
    it shows on the way). *)
Definition fetch_all (api_key start_date end_date : string) (stocks : list Stock)
    : M (dict ref * dict Z * list string) :=
  for_each stocks (λ stock '(stock_data_dict, weights, errors),
    let symbol := stock_symbol stock in
    if decide (symbol = "") then mret (stock_data_dict, weights, errors)
    else
      match fetch_stock_data symbol api_key start_date end_date with
      | inl msg => mret (stock_data_dict, weights, errors ++ [msg])
      | inr data =>
          df ← lift (process_stock_data data);
          r ← alloc df;
          mret (dict_set symbol r stock_data_dict,
                dict_set symbol (stock_weight stock) weights,
                errors)
      end) ([], [], []).

(** Lines 327-339: the "Analyze Portfolio" button, up to the portfolio
    index ([None] when nothing is computed). *)
Definition analyze (pressed : bool) (total_weight : Z)
    (api_key start_date end_date : string) (stocks : list Stock)
    : M (option CompositeSeries) :=
  if pressed && bool_decide (total_weight = 100) then
    '(stock_data_dict, weights, errors) ← fetch_all api_key start_date end_date stocks;
    match stock_data_dict with
    | [] => mret None
    | _ :: _ =>
        portfolio_df ← calculate_portfolio_performance stock_data_dict weights;
        mret (Some portfolio_df)
    end
  else mret None.

End Dashboard.

(** The errors the fetch loop shows: one for every selected symbol whose
    response has no [results], in the order of the session's stocks. *)
Definition shown_errors (get_json : string → Response) (api_key start_date end_date : string)
    (stocks : list Stock) : list string :=
  omap (λ stock,
          if decide (stock_symbol stock = "") then None
          else match fetch_stock_data get_json (stock_symbol stock) api_key start_date end_date with
               | inl msg => Some msg
               | inr _ => None
               end) stocks.

(** A symbol the loop gets data for: selected, not blank, and answered with
    [results]. *)
Definition fetched (get_json : string → Response) (api_key start_date end_date : string)
    (stocks : list Stock) (symbol : string) : Prop :=
  symbol ≠ ""
  ∧ symbol ∈ stock_symbol <$> stocks
  ∧ ∃ data, fetch_stock_data get_json symbol api_key start_date end_date = inr data.

(** Every payload the loop gets is one the table builder accepts. *)
Definition all_accepted (get_json : string → Response) (api_key start_date end_date : string)
    (stocks : list Stock) : Prop :=
  ∀ symbol data,
    fetched get_json api_key start_date end_date stocks symbol →
    fetch_stock_data get_json symbol api_key start_date end_date = inr data →
    ∃ df, process_stock_data data = Returns df.

(** The sum of the weights of a weight map. *)
Definition weights_total (weights : dict Z) : Z := foldr Z.add 0 (values weights).

(** The stocks that stay: those whose "Remove" button is not pressed. *)
Definition kept (remove : nat → bool) (stocks : list Stock) : list Stock :=
  (filter (λ p, remove p.1 = false) (zip (seq 0 (length stocks)) stocks)).*2.

(** ** A sample session *)

(** A server that knows AAPL and MSFT over January 2024 and answers every
    other request with an error. *)
Definition sample_server (url : string) : Response :=
  if decide (url = request_url "AAPL" "key" "2024-01-01" "2024-01-31")
  then mkResponse shuffled_payload None
  else if decide (url = request_url "MSFT" "key" "2024-01-01" "2024-01-31")
  then mkResponse (mkPayload (Some ascending_bars)) None
  else mkResponse (mkPayload None) (Some "NOT_FOUND"%string).

Definition sample_stocks : list Stock :=
  [mkStock "AAPL" 60; mkStock "" 0; mkStock "JUNK" 10; mkStock "MSFT" 30].

Definition sample_load : result (dict ref * dict Z * list string) * gmap nat (list (Z * Bar)) :=
  fetch_all sample_server "key" "2024-01-01" "2024-01-31" sample_stocks ∅.

(** The portfolio index of the sample session. *)
Definition sample_analysis : result (list (Z * F64.t)) * gmap nat (list (Z * Bar)) :=
  calculate_portfolio_performance [("AAPL"%string, 0%nat); ("MSFT"%string, 1%nat)]
    [("AAPL"%string, 60); ("MSFT"%string, 30)] sample_load.2.

Definition sample_portfolio : list (Z * F64.t) :=
  match sample_analysis.1 with Returns out => out | _ => [] end.

(** The widgets of a sample run of the sidebar over two stocks: AAPL at 60
    and MSFT at 40 are selected. *)
Definition sample_selected (idx : nat) : string :=
  match idx with 0%nat => "AAPL" | 1%nat => "MSFT" | _ => "" end.

Definition sample_entered (idx : nat) : Z :=
  match idx with 0%nat => 60 | 1%nat => 40 | _ => 0 end.

Definition sample_session : list Stock := [mkStock "" 0; mkStock "AAPL" 50].

Definition sample_edited : list Stock := [mkStock "AAPL" 60; mkStock "MSFT" 40].

(** The second "Remove" button is pressed. *)
Definition remove_second (idx : nat) : bool := bool_decide (idx = 1%nat).

(** A server whose every answer has an empty [results] array. *)
Definition empty_server (url : string) : Response := mkResponse (mkPayload (Some [])) None.

(* ===================================================================== *)
(** * Heap reasoning *)
(* ===================================================================== *)

Lemma bind_returns {A B} (m : M A) (f : A → M B) h a h' :
  m h = (Returns a, h') → (m ≫= f) h = f a h'.
Proof. intros Hm. unfold mbind, M_bind. by rewrite Hm. Qed.

Lemma bind_raises {A B} (m : M A) (f : A → M B) h e h' :
  m h = (Raises e, h') → (m ≫= f) h = (Raises e, h').
Proof. intros Hm. unfold mbind, M_bind. by rewrite Hm. Qed.

Lemma frame_lookup (h : heap) (r : ref) df : h !! r = Some df → frame h r = df.
Proof. unfold frame. by intros ->. Qed.

Lemma frame_live (h : heap) (r : ref) : frame h r ≠ [] → is_Some (h !! r).
Proof. unfold frame. destruct (h !! r); [eauto | done]. Qed.

Lemma frame_weaken (h h' : heap) (r : ref) : h ⊆ h' → is_Some (h !! r) → frame h' r = frame h r.
Proof.
  intros Hsub [df Hdf]. unfold frame.
  pose proof (lookup_weaken _ _ _ _ Hdf Hsub) as Hdf'.
  by rewrite Hdf, Hdf'.
Qed.

Lemma assign_fmap c (f : F64.t → F64.t) df :
  assign c (f <$> column_values c df) df
  = (λ row, (row.1, set_col c (f (get_col c row.2)) row.2)) <$> df.
Proof.
  unfold assign, column_values.
  induction df as [|[d b] df IH]; [done | cbn; f_equal; exact IH].
Qed.

Lemma assign_rebase c d b df :
  assign c (rebase_values (get_col c b) (column_values c ((d, b) :: df))) ((d, b) :: df)
  = rebased c ((d, b) :: df).
Proof. unfold rebase_values. by rewrite assign_fmap. Qed.

Lemma index_rebased c df : index (rebased c df) = index df.
Proof.
  destruct df as [|[d0 b0] df]; [done|].
  unfold rebased, index. rewrite <- list_fmap_compose. by apply list_fmap_ext.
Qed.

Lemma rebased_nil_inv c df : rebased c df = [] → df = [].
Proof. destruct df as [|[??] ?]; [done | discriminate]. Qed.

(** One iteration of the first loop on a live, non-empty frame. *)
Lemma normalize_step c symbol (r : ref) (acc : dict ref) (h : heap) :
  frame h r ≠ [] →
  let r' := fresh (dom h) in
  (normalized_df ← copy r;
   d ← deref r;
   first ← iloc0 (column_values c d);
   _ ← setitem normalized_df c (rebase_values first (column_values c d));
   mret (dict_set symbol normalized_df acc)) h
  = (Returns (dict_set symbol r' acc), <[r' := rebased c (frame h r)]> h).
Proof.
  intros Hne r'.
  assert (Hfresh : h !! r' = None).
  { apply not_elem_of_dom. apply is_fresh. }
  assert (Hr : r ≠ r').
  { intros ->. apply frame_live in Hne. rewrite Hfresh in Hne. by destruct Hne. }
  unfold mbind, M_bind, copy, deref, setitem, mret, M_ret. cbn.
  fold r'. rewrite lookup_insert_ne by done.
  fold (frame h r). destruct (frame h r) as [|[d0 b0] df] eqn:Hdf; [done|].
  cbn. rewrite lookup_insert_eq. cbn. rewrite insert_insert_eq.
  do 2 f_equal. apply (assign_rebase c d0 b0 df).
Qed.

Lemma dict_set_fresh {V} k (v : V) (d : dict V) :
  k ∉ keys d → dict_set k v d = d ++ [(k, v)].
Proof.
  unfold keys. induction d as [|[k' v'] d IH]; cbn; [done|].
  intros Hk. apply not_elem_of_cons in Hk as [Hne Hk].
  rewrite decide_False by done. f_equal. by apply IH.
Qed.

Lemma dict_get_app_l {V} k (d1 d2 : dict V) :
  k ∈ keys d1 → dict_get k (d1 ++ d2) = dict_get k d1.
Proof.
  unfold keys. induction d1 as [|[k' v'] d1 IH]; cbn.
  - by intros ?%elem_of_nil.
  - intros Hk. destruct (decide (k' = k)); [done|].
    apply IH. apply elem_of_cons in Hk as [?|?]; [congruence | done].
Qed.

Lemma dict_get_Some_keys {V} k (d : dict V) v : dict_get k d = Some v → k ∈ keys d.
Proof.
  unfold keys. induction d as [|[k' v'] d IH]; cbn; [done|].
  destruct (decide (k' = k)) as [->|]; [intros _; by left|].
  intros H. right. by apply IH.
Qed.

Lemma dict_get_keys {V} k (d : dict V) : k ∈ keys d → is_Some (dict_get k d).
Proof.
  unfold keys. induction d as [|[k' v'] d IH]; cbn.
  - by intros ?%elem_of_nil.
  - intros Hk. destruct (decide (k' = k)); [eauto|].
    apply IH. apply elem_of_cons in Hk as [?|?]; [congruence | done].
Qed.

Lemma dict_get_elem_of {V} k (d : dict V) v : dict_get k d = Some v → (k, v) ∈ d.
Proof.
  induction d as [|[k' v'] d IH]; cbn; [done|].
  destruct (decide (k' = k)) as [->|].
  - intros [= ->]. by left.
  - intros H. right. by apply IH.
Qed.

Lemma dict_get_fmap {V W} (f : V → W) k (d : dict V) :
  dict_get k (prod_map id f <$> d) = f <$> dict_get k d.
Proof.
  induction d as [|[k' v'] d IH]; cbn; [done|].
  destruct (decide (k' = k)); [done | exact IH].
Qed.

Lemma keys_frames (h : heap) (d : dict ref) : keys (frames h d) = keys d.
Proof.
  unfold keys, frames. rewrite <- list_fmap_compose. by apply list_fmap_ext; intros ? [??].
Qed.

Lemma values_frames (h : heap) (d : dict ref) : values (frames h d) = frame h <$> values d.
Proof.
  unfold values, frames. rewrite <- !list_fmap_compose. by apply list_fmap_ext; intros ? [??].
Qed.

Lemma all_nonempty_weaken (h h' : heap) d :
  h ⊆ h' → all_nonempty h d → all_nonempty h' d.
Proof.
  intros Hsub Hall. unfold all_nonempty. eapply Forall_impl; [exact Hall|].
  intros [k r] Hne. cbn in *.
  by rewrite (frame_weaken h h') by eauto using frame_live.
Qed.

Lemma Forall2_impl_Forall {A B} (P Q : A → B → Prop) l k :
  Forall2 P l k → Forall (λ x, ∀ y, P x y → Q x y) l → Forall2 Q l k.
Proof. induction 1; inversion 1; constructor; auto. Qed.

(** The first loop, from any accumulated dictionary whose keys are new. *)
Lemma normalize_loop c (sdd : dict ref) : ∀ (acc : dict ref) (h : heap),
  all_nonempty h sdd →
  NoDup (keys sdd) →
  (∀ k, k ∈ keys sdd → k ∉ keys acc) →
  ∃ (rs : list ref) (h' : heap),
    for_each sdd (λ '(symbol, df) normalized_dfs,
      normalized_df ← copy df;
      d ← deref df;
      first ← iloc0 (column_values c d);
      _ ← setitem normalized_df c (rebase_values first (column_values c d));
      mret (dict_set symbol normalized_df normalized_dfs)) acc h
    = (Returns (acc ++ zip (keys sdd) rs), h')
    ∧ h ⊆ h'
    ∧ Forall2 (λ kr r', frame h' r' = rebased c (frame h kr.2)) sdd rs.
Proof.
  induction sdd as [|[k r] sdd IH]; intros acc h Hne Hnd Hacc.
  - exists [], h. cbn. by rewrite app_nil_r.
  - apply Forall_cons in Hne as [Hr Hne]. cbn in Hr.
    change (keys ((k, r) :: sdd)) with (k :: keys sdd) in *.
    apply NoDup_cons in Hnd as [Hk Hnd].
    set (r' := fresh (dom h)).
    set (h1 := <[r' := rebased c (frame h r)]> h).
    assert (Hsub : h ⊆ h1).
    { apply insert_subseteq, not_elem_of_dom, is_fresh. }
    destruct (IH (acc ++ [(k, r')]) h1) as (rs & h' & Hrun & Hsub' & Hall).
    { by apply (all_nonempty_weaken h). }
    { done. }
    { intros k' Hk'. unfold keys. rewrite fmap_app. cbn.
      intros [?|Hin]%elem_of_app.
      - eapply Hacc; [|done]. apply elem_of_cons. by right.
      - apply list_elem_of_singleton in Hin as ->. done. }
    exists (r' :: rs), h'. split; [|split].
    + cbn [for_each]. erewrite bind_returns; [|by apply normalize_step].
      rewrite dict_set_fresh by (apply Hacc, elem_of_cons; by left).
      fold r' h1. rewrite Hrun. cbn. by rewrite <- app_assoc.
    + by trans h1.
    + constructor.
      * cbn. apply frame_lookup. eapply lookup_weaken; [|done].
        apply lookup_insert_eq.
      * eapply Forall2_impl_Forall; [exact Hall|].
        eapply Forall_impl; [exact Hne|]. intros [k'' r''] Hne'' r3. cbn in *.
        intros ->. f_equal. apply frame_weaken; [done | by apply frame_live].
Qed.

Lemma normalize_all_returns c (sdd : dict ref) (h : heap) :
  all_nonempty h sdd →
  NoDup (keys sdd) →
  ∃ (rs : list ref) (h' : heap),
    normalize_all c sdd h = (Returns (zip (keys sdd) rs), h')
    ∧ h ⊆ h'
    ∧ Forall2 (λ kr r', frame h' r' = rebased c (frame h kr.2)) sdd rs.
Proof.
  intros Hne Hnd.
  destruct (normalize_loop c sdd [] h Hne Hnd) as (rs & h' & Hrun & Hsub & Hall).
  { intros k _ Hk. by apply elem_of_nil in Hk. }
  by exists rs, h'.
Qed.

(** ** The loops that only read *)

Lemma intersect_loop (rs : list ref) : ∀ (acc : option (gset Z)) (h : heap),
  for_each rs (λ df common_dates,
    d ← deref df;
    mret (match common_dates with
          | None => Some (index_set d)
          | Some s => Some (s ∩ index_set d)
          end)) acc h
  = (Returns (foldl intersect_step acc (frame h <$> rs)), h).
Proof.
  induction rs as [|r rs IH]; intros acc h; [done|].
  cbn [for_each]. erewrite bind_returns; [apply IH|]. done.
Qed.

Lemma foldl_intersect_Some s (dfs : list (list (Z * Bar))) :
  foldl intersect_step (Some s) dfs = Some (foldl (λ s d, s ∩ index_set d) s dfs).
Proof. revert s. induction dfs as [|d dfs IH]; intros s; [done | apply IH]. Qed.

Lemma foldl_intersect_None (dfs : list (list (Z * Bar))) :
  dfs ≠ [] → foldl intersect_step None dfs = Some (common_dates dfs).
Proof. destruct dfs as [|d dfs]; [done|]. intros _. apply foldl_intersect_Some. Qed.

Lemma elem_of_foldl_intersect x s (dfs : list (list (Z * Bar))) :
  x ∈ foldl (λ s d, s ∩ index_set d) s dfs ↔ x ∈ s ∧ Forall (λ d, x ∈ index d) dfs.
Proof.
  revert s. induction dfs as [|d dfs IH]; intros s; cbn.
  - split; [by intros ? | by intros [? _]].
  - rewrite IH, Forall_cons, elem_of_intersection. unfold index_set.
    rewrite elem_of_list_to_set. tauto.
Qed.

(** The common dates are the dates of every frame. *)
Lemma elem_of_common_dates x (dfs : list (list (Z * Bar))) :
  dfs ≠ [] → x ∈ common_dates dfs ↔ Forall (λ d, x ∈ index d) dfs.
Proof.
  destruct dfs as [|d dfs]; [done|]. intros _. cbn.
  rewrite elem_of_foldl_intersect, Forall_cons. unfold index_set.
  by rewrite elem_of_list_to_set.
Qed.

Lemma get_set_col c v b : get_col c (set_col c v b) = v.
Proof. by destruct c. Qed.

Lemma rows_at_fmap date (g : Bar → Bar) (df : list (Z * Bar)) :
  rows_at date ((λ row, (row.1, g row.2)) <$> df) = g <$> rows_at date df.
Proof.
  unfold rows_at. induction df as [|[d b] df IH]; [done|].
  cbn [fmap list_fmap]. rewrite !filter_cons. cbn.
  destruct (decide (d = date)); cbn; by rewrite IH.
Qed.

Lemma rows_at_absent date (df : list (Z * Bar)) :
  date ∉ index df → rows_at date df = [].
Proof.
  unfold rows_at, index. induction df as [|[d b] df IH]; [done|].
  rewrite filter_cons. cbn. intros [Hne Hin]%not_elem_of_cons.
  destruct (decide (d = date)); [congruence | by apply IH].
Qed.

Lemma rows_at_unique date (df : list (Z * Bar)) :
  NoDup (index df) → date ∈ index df → ∃ b, rows_at date df = [b].
Proof.
  unfold index. induction df as [|[d b] df IH].
  - by intros _ ?%elem_of_nil.
  - unfold rows_at. rewrite filter_cons. cbn. intros [Hd Hnd]%NoDup_cons Hin.
    destruct (decide (d = date)) as [->|Hne].
    + exists b. cbn. f_equal. by apply rows_at_absent.
    + apply IH; [done|]. apply elem_of_cons in Hin as [?|?]; [congruence | done].
Qed.

Lemma loc_rebased c date (df : list (Z * Bar)) (h : heap) :
  NoDup (index df) → date ∈ index df →
  loc date c (rebased c df) h
  = (Returns ((value_at c df date / first_value c df) * F64.hundred)%f64, h).
Proof.
  intros Hnd Hin. destruct (rows_at_unique date df Hnd Hin) as [b Hb].
  destruct df as [|[d0 b0] df]; [by apply elem_of_nil in Hin|].
  unfold loc, rebased.
  rewrite (rows_at_fmap date
    (λ b, set_col c ((get_col c b / get_col c b0) * F64.hundred)%f64 b)), Hb. cbn.
  unfold mret, M_ret. rewrite get_set_col.
  unfold value_at, first_value. by rewrite Hb.
Qed.

Lemma dict_get_zip {V W} (P : V → W → Prop) (d : dict V) (ws : list W) k :
  Forall2 (λ kv w, P kv.2 w) d ws → k ∈ keys d →
  ∃ v w, dict_get k d = Some v ∧ dict_get k (zip (keys d) ws) = Some w ∧ P v w.
Proof.
  induction 1 as [|[k' v] w d ws HP Hall IH]; cbn.
  - by intros ?%elem_of_nil.
  - intros Hk. destruct (decide (k' = k)); [by exists v, w|].
    apply IH. apply elem_of_cons in Hk as [?|?]; [congruence | done].
Qed.

Lemma weighted_value_loop c (h : heap) (nd : dict ref) sm date (w : dict Z) :
  ∀ acc,
  Forall (readable c h nd sm date) (keys w) →
  for_each w (λ '(symbol, weight) value,
    match dict_get symbol nd with
    | None => raise (KeyError symbol)
    | Some df =>
        d ← deref df;
        x ← loc date c d;
        mret (value + x * weight_fraction weight)%f64
    end) acc h
  = (Returns (foldl (λ acc sw,
                acc + rebased_value c sm sw.1 date * weight_fraction sw.2)%f64 acc w), h).
Proof.
  induction w as [|[sym wt] w IH]; intros acc Hall; [done|].
  change (keys ((sym, wt) :: w)) with (sym :: keys w) in Hall.
  apply Forall_cons in Hall as [(r' & df & Hnd & Hsm & Hfr & Hnodup & Hin) Hall].
  cbn [for_each foldl]. erewrite bind_returns; [by apply IH|].
  rewrite Hnd. erewrite bind_returns; [|done].
  unfold deref. fold (frame h r'). rewrite Hfr.
  erewrite bind_returns; [|by apply loc_rebased].
  unfold rebased_value. cbn. by rewrite Hsm.
Qed.

Lemma weighted_value_returns c (h : heap) (nd : dict ref) sm date (w : dict Z) :
  Forall (readable c h nd sm date) (keys w) →
  weighted_value c nd w date h = (Returns (weighted_sum c sm w date), h).
Proof. apply weighted_value_loop. Qed.

Lemma weighted_rows_loop c (h : heap) (nd : dict ref) sm (w : dict Z) (dates : list Z) :
  ∀ acc,
  Forall (λ date, Forall (readable c h nd sm date) (keys w)) dates →
  for_each dates (λ date portfolio_values,
    value ← weighted_value c nd w date;
    mret (portfolio_values ++ [(date, value)])) acc h
  = (Returns (acc ++ ((λ d, (d, weighted_sum c sm w d)) <$> dates)), h).
Proof.
  induction dates as [|date dates IH]; intros acc Hall.
  - cbn. rewrite app_nil_r. reflexivity.
  - apply Forall_cons in Hall as [Hd Hall].
    cbn [for_each].
    erewrite bind_returns with (a := acc ++ [(date, weighted_sum c sm w date)]) (h' := h).
    + rewrite IH by done. cbn. by rewrite <- app_assoc.
    + erewrite bind_returns; [|by apply (weighted_value_returns c h nd sm)]. done.
Qed.

Lemma readable_after_normalize c (h h' : heap) (sdd : dict ref) rs date sym :
  Forall2 (λ kr r', frame h' r' = rebased c (frame h kr.2)) sdd rs →
  unique_labels h sdd →
  date ∈ common_dates (values (frames h sdd)) →
  sym ∈ keys sdd →
  readable c h' (zip (keys sdd) rs) (frames h sdd) date sym.
Proof.
  intros Hall Huniq Hdate Hsym.
  destruct (dict_get_zip (λ r r', frame h' r' = rebased c (frame h r)) sdd rs sym Hall Hsym)
    as (r & r' & Hr & Hr' & Hfr).
  exists r', (frame h r). split; [done|]. split.
  { unfold frames. by rewrite dict_get_fmap, Hr. }
  split; [done|].
  apply dict_get_elem_of in Hr.
  split.
  - unfold unique_labels in Huniq. rewrite Forall_forall in Huniq. by apply (Huniq (sym, r)).
  - assert (Hne : values (frames h sdd) ≠ []).
    { destruct sdd; [by apply elem_of_nil in Hr | done]. }
    apply (elem_of_common_dates _ _ Hne) in Hdate.
    rewrite Forall_forall in Hdate. apply Hdate.
    rewrite values_frames. apply list_elem_of_fmap. exists r. split; [done|].
    unfold values. apply list_elem_of_fmap. by exists (sym, r).
Qed.

Lemma index_set_rebased c (df : list (Z * Bar)) : index_set (rebased c df) = index_set df.
Proof. unfold index_set. by rewrite index_rebased. Qed.

Lemma foldl_intersect_rebased c acc (dfs : list (list (Z * Bar))) :
  foldl intersect_step acc (rebased c <$> dfs) = foldl intersect_step acc dfs.
Proof.
  revert acc. induction dfs as [|d dfs IH]; intros acc; [done|].
  cbn. rewrite IH. f_equal. unfold intersect_step. by rewrite index_set_rebased.
Qed.

Lemma Forall2_frames_rebased c (h h' : heap) (sdd : dict ref) (rs : list ref) :
  Forall2 (λ kr r', frame h' r' = rebased c (frame h kr.2)) sdd rs →
  frame h' <$> rs = rebased c <$> values (frames h sdd).
Proof.
  induction 1 as [|[k r] r' sdd rs Hx _ IH]; [done|].
  cbn in *. by rewrite Hx, IH.
Qed.

Lemma values_zip {V} (ks : list string) (vs : list V) :
  length ks = length vs → values (zip ks vs) = vs.
Proof. intros. by apply snd_zip, Nat.eq_le_incl. Qed.

Lemma elem_of_sorted_common_dates d (dfs : list (list (Z * Bar))) :
  d ∈ sorted_common_dates dfs ↔ d ∈ common_dates dfs.
Proof. unfold sorted_common_dates. by rewrite merge_sort_Permutation, elem_of_elements. Qed.

Lemma sorted_common_dates_nil (dfs : list (list (Z * Bar))) :
  sorted_common_dates dfs = [] → common_dates dfs = ∅.
Proof.
  intros Hnil. apply set_eq. intros d.
  rewrite <- elem_of_sorted_common_dates, Hnil. set_solver.
Qed.

(** ** The call that returns

    On a dictionary of non-empty, uniquely labelled frames with at least one
    common date, and weights over its symbols, the call returns one row per
    common date, in ascending order, holding the weighted sum at that date. *)
Lemma aggregate_returns c (h : heap) (sdd : dict ref) (w : dict Z) :
  NoDup (keys sdd) →
  all_nonempty h sdd →
  unique_labels h sdd →
  weights_covered w sdd →
  common_dates (values (frames h sdd)) ≠ ∅ →
  ∃ h' : heap,
    aggregate c sdd w h
    = (Returns ((λ d, (d, weighted_sum c (frames h sdd) w d))
                  <$> sorted_common_dates (values (frames h sdd))), h')
    ∧ h ⊆ h'.
Proof.
  intros Hnd Hne Huniq Hcov Hcommon.
  destruct (normalize_all_returns c sdd h Hne Hnd) as (rs & h' & Hrun & Hsub & Hall).
  exists h'. split; [|done].
  assert (Hsdd : sdd ≠ []) by (intros ->; by apply Hcommon).
  assert (Hlen : length (keys sdd) = length rs).
  { unfold keys. rewrite length_fmap. by eapply Forall2_length. }
  unfold aggregate. erewrite bind_returns; [|exact Hrun].
  unfold intersect_all. rewrite values_zip by done.
  erewrite bind_returns; [|apply intersect_loop].
  rewrite (Forall2_frames_rebased c h h' sdd rs Hall), foldl_intersect_rebased.
  rewrite foldl_intersect_None.
  2:{ rewrite values_frames. unfold values. destruct sdd; done. }
  erewrite bind_returns; [|done].
  erewrite bind_returns.
  2:{ apply (weighted_rows_loop c h' _ (frames h sdd)).
      apply Forall_forall. intros d Hd. apply Forall_forall. intros sym Hsym.
      apply (readable_after_normalize c h h'); [done | done | | by apply Hcov].
      by apply elem_of_sorted_common_dates. }
  fold (sorted_common_dates (values (frames h sdd))).
  destruct (sorted_common_dates (values (frames h sdd))) eqn:Hs; [|done].
  by apply sorted_common_dates_nil in Hs.
Qed.

(** ** The heap only grows *)

Lemma preserving_ret {A} (a : A) : preserving (mret a).
Proof. by intros h. Qed.

Lemma preserving_raise {A} e : preserving (@raise A e).
Proof. by intros h. Qed.

Lemma preserving_non_scalar {A} : preserving (@non_scalar A).
Proof. by intros h. Qed.

Lemma preserving_deref r : preserving (deref r).
Proof. by intros h. Qed.

Lemma preserving_bind {A B} (m : M A) (f : A → M B) :
  preserving m → (∀ a, preserving (f a)) → preserving (m ≫= f).
Proof.
  intros Hm Hf h. unfold mbind, M_bind.
  specialize (Hm h). destruct (m h) as [[a| |] h1]; cbn in *; [|done..].
  trans h1; [done | apply Hf].
Qed.

Lemma preserving_for_each {A S} (xs : list A) (body : A → S → M S) :
  (∀ x s, preserving (body x s)) → ∀ s, preserving (for_each xs body s).
Proof.
  intros Hbody. induction xs as [|x xs IH]; intros s; cbn [for_each].
  - apply preserving_ret.
  - apply preserving_bind; [apply Hbody | apply IH].
Qed.

Lemma preserving_loc date c df : preserving (loc date c df).
Proof.
  unfold loc. destruct (rows_at date df) as [|b [|b' bs]];
    [apply preserving_raise | apply preserving_ret | apply preserving_non_scalar].
Qed.

(** An iteration of the first loop writes to the copy it has just made. *)
Lemma preserving_normalize_body c symbol (r : ref) (acc : dict ref) :
  preserving
    (normalized_df ← copy r;
     d ← deref r;
     first ← iloc0 (column_values c d);
     _ ← setitem normalized_df c (rebase_values first (column_values c d));
     mret (dict_set symbol normalized_df acc)).
Proof.
  intros h. unfold mbind, M_bind, copy, deref, setitem. cbn.
  set (r' := fresh (dom h)).
  assert (Hfresh : h !! r' = None) by apply not_elem_of_dom, is_fresh.
  destruct (column_values c (default [] (<[r' := default [] (h !! r)]> h !! r)));
    cbn; [by apply insert_subseteq|].
  rewrite insert_insert_eq. by apply insert_subseteq.
Qed.

Lemma preserving_aggregate c (sdd : dict ref) (w : dict Z) : preserving (aggregate c sdd w).
Proof.
  unfold aggregate.
  apply preserving_bind.
  { unfold normalize_all. apply preserving_for_each. intros [symbol r] acc.
    apply preserving_normalize_body. }
  intros nd. apply preserving_bind.
  { unfold intersect_all. apply preserving_for_each. intros r acc.
    apply preserving_bind; [apply preserving_deref | intros; apply preserving_ret]. }
  intros common. apply preserving_bind.
  { destruct common; [apply preserving_ret | apply preserving_raise]. }
  intros dates. apply preserving_bind.
  { unfold weighted_rows. apply preserving_for_each. intros date rows.
    apply preserving_bind; [|intros; apply preserving_ret].
    unfold weighted_value. apply preserving_for_each. intros [symbol weight] value.
    destruct (dict_get symbol nd); [|apply preserving_raise].
    apply preserving_bind; [apply preserving_deref|]. intros d.
    apply preserving_bind; [apply preserving_loc | intros; apply preserving_ret]. }
  intros rows. destruct rows; [apply preserving_raise | apply preserving_ret].
Qed.

(* ===================================================================== *)
(** * Binary64 facts *)
(* ===================================================================== *)

Lemma div_eucl_shiftl_self (m : positive) (n : Z) :
  0 ≤ n → IntDef.Z.div_eucl (IntDef.Z.shiftl (Z.pos m) n) (Z.pos m) = (2 ^ n, 0).
Proof.
  intros Hn. change (Z.div_eucl (Z.shiftl (Z.pos m) n) (Z.pos m) = (2 ^ n, 0)).
  rewrite Z.shiftl_mul_pow2 by done.
  assert (Hdiv : Z.pos m * 2 ^ n / Z.pos m = 2 ^ n).
  { rewrite Z.mul_comm. by apply Z.div_mul. }
  assert (Hmod : (Z.pos m * 2 ^ n) `mod` Z.pos m = 0).
  { rewrite Z.mul_comm. by apply Z.mod_mul. }
  unfold Z.div, Z.modulo in Hdiv, Hmod.
  destruct (Z.div_eucl (Z.pos m * 2 ^ n) (Z.pos m)) as [q r]. cbn in *. by subst.
Qed.

Lemma new_location_zero (nb : Z) : new_location nb 0 = loc_Exact.
Proof. unfold new_location. by destruct (Z.even nb). Qed.

(** The quotient of a mantissa by itself, before rounding. *)
Lemma div_core_self (m : positive) (e : Z) :
  SFdiv_core_binary F64.prec F64.emax (Z.pos m) e (Z.pos m) e = (2 ^ 53, -53, loc_Exact).
Proof.
  unfold SFdiv_core_binary. rewrite !Z.sub_diag.
  change (fexp F64.prec F64.emax 0) with (-53).
  change (Z.min (-53) 0) with (-53).
  change (0 - -53) with 53.
  cbv match. rewrite div_eucl_shiftl_self by done.
  by rewrite new_location_zero.
Qed.

(** A finite non-zero double divided by itself is exactly one. *)
Lemma div_self (x : F64.t) :
  F64.is_finite_nonzero x = true → (x / x)%f64 = F64.one.
Proof.
  destruct x as [| | |s m e]; try discriminate. intros _.
  unfold F64.div, SFdiv. rewrite div_core_self, xorb_nilpotent. by vm_compute.
Qed.

(** Dividing by a zero, an infinity or NaN never gives a number back when
    the dividend is the divisor itself. *)
Lemma div_self_nan (x : F64.t) :
  F64.is_finite_nonzero x = false → (x / x)%f64 = F64.nan.
Proof. by destruct x as [[]|[]| |s m e]. Qed.

Lemma one_times_hundred : (F64.one * F64.hundred)%f64 = F64.hundred.
Proof. by vm_compute. Qed.

Lemma nan_times (x : F64.t) : (F64.nan * x)%f64 = F64.nan.
Proof. by destruct x. Qed.

Lemma NoDup_sorted_common_dates (dfs : list (list (Z * Bar))) :
  NoDup (sorted_common_dates dfs).
Proof.
  unfold sorted_common_dates. rewrite merge_sort_Permutation. apply NoDup_elements.
Qed.

Lemma StronglySorted_le_lt (l : list Z) :
  StronglySorted Z.le l → NoDup l → StronglySorted Z.lt l.
Proof.
  induction 1 as [|x l Hl IH Hx]; [constructor|].
  intros [Hnin Hnd]%NoDup_cons. constructor; [by apply IH|].
  apply Forall_forall. intros y Hy. rewrite Forall_forall in Hx.
  specialize (Hx y Hy). assert (x ≠ y) by (intros ->; done). lia.
Qed.

Lemma StronglySorted_sorted_common_dates (dfs : list (list (Z * Bar))) :
  StronglySorted Z.lt (sorted_common_dates dfs).
Proof.
  apply StronglySorted_le_lt; [|apply NoDup_sorted_common_dates].
  apply StronglySorted_merge_sort; apply _.
Qed.

Lemma length_sorted_common_dates (dfs : list (list (Z * Bar))) :
  length (sorted_common_dates dfs) = size (common_dates dfs).
Proof. unfold sorted_common_dates. by rewrite merge_sort_Permutation. Qed.

Lemma fst_dated {B} (f : Z → B) (l : list Z) : ((λ d, (d, f d)) <$> l).*1 = l.
Proof. rewrite <- list_fmap_compose. apply list_fmap_id. Qed.

Lemma elem_of_dated {B} (f : Z → B) (l : list Z) d v :
  (d, v) ∈ (λ d, (d, f d)) <$> l ↔ d ∈ l ∧ v = f d.
Proof.
  rewrite list_elem_of_fmap. split.
  - intros (d' & [= -> ->] & Hin). done.
  - intros [Hin ->]. by exists d.
Qed.

(* ===================================================================== *)
(** * Facts about the sample inputs *)
(* ===================================================================== *)

(** Closed decidable facts, by evaluation. *)
Ltac by_compute := apply (bool_decide_unpack _); vm_compute; exact I.

Lemma sample_hyps :
  NoDup (keys (refs_of sample_seriesMap))
  ∧ all_nonempty (heap_of (values sample_seriesMap)) (refs_of sample_seriesMap)
  ∧ unique_labels (heap_of (values sample_seriesMap)) (refs_of sample_seriesMap)
  ∧ weights_covered sample_weights (refs_of sample_seriesMap).
Proof.
  split; [by_compute|].
  split; [by repeat constructor|].
  split; [repeat constructor; by_compute|].
  unfold weights_covered. by_compute.
Qed.

(** On an empty intersection the call raises, whatever the weights. *)
Lemma aggregate_raises_without_common_date c (h : heap) (sdd : dict ref) (w : dict Z) :
  NoDup (keys sdd) →
  sdd ≠ [] →
  all_nonempty h sdd →
  common_dates (values (frames h sdd)) = ∅ →
  ∃ h' : heap,
    aggregate c sdd w h = (Raises (KeyError "None of ['date'] are in the columns"), h').
Proof.
  intros Hnd Hsdd Hne Hcommon.
  destruct (normalize_all_returns c sdd h Hne Hnd) as (rs & h' & Hrun & Hsub & Hall).
  exists h'.
  assert (Hlen : length (keys sdd) = length rs).
  { unfold keys. rewrite length_fmap. by eapply Forall2_length. }
  unfold aggregate. erewrite bind_returns; [|exact Hrun].
  unfold intersect_all. rewrite values_zip by done.
  erewrite bind_returns; [|apply intersect_loop].
  rewrite (Forall2_frames_rebased c h h' sdd rs Hall), foldl_intersect_rebased.
  rewrite foldl_intersect_None.
  2:{ rewrite values_frames. unfold values. destruct sdd; done. }
  erewrite bind_returns; [|done].
  rewrite Hcommon, elements_empty. done.
Qed.

(** * Lemmas for the claims *)

(** ** Rebasing *)

Lemma value_at_head c d0 b0 (df : list (Z * Bar)) : value_at c ((d0, b0) :: df) d0 = get_col c b0.
Proof.
  unfold value_at, rows_at. rewrite filter_cons. cbn. by rewrite decide_True.
Qed.

Lemma StronglySorted_lt_head d0 (l : list Z) :
  StronglySorted Z.lt (d0 :: l) → ∀ d, d ∈ d0 :: l → d0 ≤ d.
Proof.
  intros [_ Hall]%StronglySorted_inv d [->|Hd]%elem_of_cons; [lia|].
  rewrite Forall_forall in Hall. specialize (Hall d Hd). lia.
Qed.

(** ** Empty series *)

(** An iteration of the first loop on an empty frame. *)
Lemma normalize_step_empty c symbol (r : ref) (acc : dict ref) (h : heap) :
  frame h r = [] →
  ∃ h' : heap,
    h ⊆ h' ∧
    (normalized_df ← copy r;
     d ← deref r;
     first ← iloc0 (column_values c d);
     _ ← setitem normalized_df c (rebase_values first (column_values c d));
     mret (dict_set symbol normalized_df acc)) h
    = (Raises (IndexError "single positional indexer is out-of-bounds"), h').
Proof.
  intros Hempty. set (r' := fresh (dom h)).
  assert (Hfresh : h !! r' = None) by apply not_elem_of_dom, is_fresh.
  exists (<[r' := []]> h). split; [by apply insert_subseteq|].
  unfold mbind, M_bind, copy, deref. cbn. fold r' (frame h r). rewrite Hempty.
  destruct (decide (r = r')) as [->|Hne].
  - by rewrite lookup_insert_eq.
  - rewrite lookup_insert_ne by done. fold (frame h r). by rewrite Hempty.
Qed.

Lemma normalize_loop_raises c (sdd : dict ref) : ∀ (acc : dict ref) (h : heap),
  Exists (λ kr, h !! kr.2 = Some []) sdd →
  ∃ h' : heap,
    for_each sdd (λ '(symbol, df) normalized_dfs,
      normalized_df ← copy df;
      d ← deref df;
      first ← iloc0 (column_values c d);
      _ ← setitem normalized_df c (rebase_values first (column_values c d));
      mret (dict_set symbol normalized_df normalized_dfs)) acc h
    = (Raises (IndexError "single positional indexer is out-of-bounds"), h').
Proof.
  induction sdd as [|[k r] sdd IH]; intros acc h Hex.
  - by apply Exists_nil in Hex.
  - cbn [for_each]. destruct (decide (frame h r = [])) as [Hempty|Hne].
    + destruct (normalize_step_empty c k r acc h Hempty) as (h' & _ & Hstep).
      exists h'. by erewrite bind_raises.
    + erewrite bind_returns; [|by apply normalize_step].
      apply IH. apply Exists_cons in Hex as [Hhead|Htail].
      * cbn in Hhead. by rewrite (frame_lookup _ _ _ Hhead) in Hne.
      * eapply Exists_impl; [exact Htail|]. intros [k' r0] Hr0. cbn in *.
        eapply lookup_weaken; [exact Hr0|].
        apply insert_subseteq, not_elem_of_dom, is_fresh.
Qed.

Lemma aggregate_raises_on_empty_series c (h : heap) (sdd : dict ref) (w : dict Z)
    (symbol : string) (r : ref) :
  (symbol, r) ∈ sdd → h !! r = Some [] →
  ∃ h' : heap,
    aggregate c sdd w h
    = (Raises (IndexError "single positional indexer is out-of-bounds"), h').
Proof.
  intros Hin Hr.
  destruct (normalize_loop_raises c sdd [] h) as [h' Hrun].
  { apply Exists_exists. by exists (symbol, r). }
  exists h'. unfold aggregate. by erewrite bind_raises.
Qed.

(** ** The table builder *)

Global Instance label_le_total : Total label_le.
Proof. intros [d1 b1] [d2 b2]. unfold label_le. cbn. lia. Qed.

Global Instance label_le_trans : Transitive label_le.
Proof. intros [d1 b1] [d2 b2] [d3 b3]. unfold label_le. cbn. lia. Qed.

Lemma StronglySorted_index (df : list (Z * Bar)) :
  StronglySorted label_le df → StronglySorted Z.le (index df).
Proof.
  unfold index. induction 1 as [|row df Hdf IH Hrow]; cbn; constructor; [done|].
  apply Forall_fmap. eapply Forall_impl; [exact Hrow|]. by intros [d b].
Qed.

Lemma index_sort_index (df : list (Z * Bar)) : index (sort_index df) ≡ₚ index df.
Proof. unfold index, sort_index. by rewrite merge_sort_Permutation. Qed.

Lemma index_to_row (rs : list RawBar) : index (to_row <$> rs) = raw_t <$> rs.
Proof. unfold index. rewrite <- list_fmap_compose. by apply list_fmap_ext. Qed.

(** ** Intersecting before rebasing *)

Lemma foldl_ext_in {A B} (f g : A → B → A) (l : list B) :
  (∀ a x, x ∈ l → f a x = g a x) → ∀ a, foldl f a l = foldl g a l.
Proof.
  induction l as [|x l IH]; intros Hfg a; [done|]. cbn.
  rewrite Hfg by (by left). apply IH. intros a' y Hy. apply Hfg. by right.
Qed.

Lemma rows_at_restrict (s : gset Z) date (df : list (Z * Bar)) :
  date ∈ s → rows_at date (restrict s df) = rows_at date df.
Proof.
  intros Hin. unfold rows_at, restrict. f_equal.
  induction df as [|[d b] df IH]; [done|].
  rewrite !filter_cons. cbn.
  destruct (decide (d ∈ s)) as [Hd|Hd].
  - rewrite filter_cons. cbn. destruct (decide (d = date)); by rewrite IH.
  - rewrite decide_False by (by intros ->). exact IH.
Qed.

Lemma first_value_restrict c (s : gset Z) (df : list (Z * Bar)) d0 :
  head (index df) = Some d0 → d0 ∈ s →
  first_value c (restrict s df) = first_value c df.
Proof.
  destruct df as [|[d b] df]; [done|]. intros [= ->] Hin.
  unfold first_value, restrict. rewrite filter_cons. cbn. by rewrite decide_True.
Qed.

Lemma rebased_value_restrict c (sm : dict (list (Z * Bar))) (s : gset Z) symbol date :
  date ∈ s →
  Forall (starts_in s) (values sm) →
  rebased_value c (prod_map id (restrict s) <$> sm) symbol date
  = rebased_value c sm symbol date.
Proof.
  intros Hdate Hstart. unfold rebased_value. rewrite dict_get_fmap.
  destruct (dict_get symbol sm) as [df|] eqn:Hget; [|done]. cbn.
  apply dict_get_elem_of in Hget.
  rewrite Forall_forall in Hstart. destruct (Hstart df) as (d0 & Hhead & Hd0).
  { unfold values. apply list_elem_of_fmap. by exists (symbol, df). }
  unfold value_at. rewrite rows_at_restrict by done.
  by rewrite (first_value_restrict c s df d0).
Qed.

(** ** Scaling a series *)

Lemma mul_pow2 n (v : F64.t) : scalable n v → (F64.pow2 n * v)%f64 = shift n v.
Proof.
  destruct v as [s|s| |s m e]; try done. intros [Hd [Hlo Hhi]].
  unfold F64.mul, SFmul, F64.pow2, shift. cbn [xorb].
  set (M := (m~0~0~0~0~0~0~0~0~0~0~0~0~0~0~0~0~0~0~0~0~0~0~0~0~0~0~0~0~0~0~0~0~0~0~0~0~0~0~0~0~0~0~0~0~0~0~0~0~0~0~0~0)%positive).
  change (4503599627370496 * m)%positive with M.
  unfold binary_round_aux, shr_fexp.
  assert (HdM : Zdigits2 (Z.pos M) = 105).
  { unfold M. cbn [Zdigits2 digits2_pos]. rewrite Hd. reflexivity. }
  rewrite HdM.
  replace (fexp F64.prec F64.emax (105 + (n - 52 + e)) - (n - 52 + e)) with 52
    by (unfold fexp, emin, F64.prec, F64.emax; lia).
  assert (Hshr : SpecFloat.iter_pos shr_1 52 (Build_shr_record (Z.pos M) false false)
                 = Build_shr_record (Z.pos m) false false) by (by vm_compute).
  cbn [shr shr_record_of_loc]. rewrite Hshr.
  cbn [shr_m loc_of_shr_record round_nearest_even Zdigits2]. rewrite Hd.
  replace (fexp F64.prec F64.emax (53 + (n - 52 + e + 52)) - (n - 52 + e + 52)) with 0
    by (unfold fexp, emin, F64.prec, F64.emax; lia).
  cbn [shr shr_m].
  replace (n - 52 + e + 52) with (e + n) by lia.
  by rewrite (proj2 (Z.leb_le _ _)) by (unfold F64.prec, F64.emax; lia).
Qed.

(** A quotient depends on the difference of the exponents only. *)
Lemma div_shift n (x y : F64.t) : (shift n x / shift n y)%f64 = (x / y)%f64.
Proof.
  destruct x as [sx|sx| |sx mx ex], y as [sy|sy| |sy my ey]; try done.
  unfold shift, F64.div, SFdiv, SFdiv_core_binary.
  replace (Zdigits2 (Z.pos mx) + (ex + n) - (Zdigits2 (Z.pos my) + (ey + n)))
    with (Zdigits2 (Z.pos mx) + ex - (Zdigits2 (Z.pos my) + ey)) by lia.
  by replace (ex + n - (ey + n)) with (ex - ey) by lia.
Qed.

Lemma set_set_col c v v' b : set_col c v (set_col c v' b) = set_col c v b.
Proof. by destruct c. Qed.

Lemma rebased_scale_pow2 c n (df : list (Z * Bar)) :
  Forall (scalable n) (column_values c df) →
  rebased c (scale c (F64.pow2 n) df) = rebased c df.
Proof.
  destruct df as [|[d0 b0] df]; [done|]. intros Hall.
  unfold column_values in Hall. rewrite !fmap_cons in Hall. cbn [snd] in Hall.
  apply Forall_cons in Hall as [Hb0 Hall].
  unfold rebased, scale. cbn [fmap list_fmap fst snd].
  rewrite <- list_fmap_compose. cbn [fmap list_fmap].
  rewrite !get_set_col, set_set_col, (mul_pow2 n _ Hb0), div_shift. f_equal.
  rewrite !Forall_fmap in Hall.
  apply Forall_fmap_ext_1. eapply Forall_impl; [exact Hall|].
  intros [d b] Hb. unfold compose in *. cbn [fst snd] in *.
  by rewrite !get_set_col, set_set_col, (mul_pow2 n _ Hb), div_shift.
Qed.

(** ** Calls on frames given by value *)

Lemma frames_heap_of_from (dfs : list (list (Z * Bar))) (sm : dict (list (Z * Bar))) :
  ∀ j : nat,
  drop j dfs = values sm →
  frames (heap_of dfs) (zip (keys sm) (seq j (length sm))) = sm.
Proof.
  induction sm as [|[k df] sm IH]; intros j Hdrop; [done|].
  cbn. f_equal.
  - f_equal. unfold frame, heap_of. rewrite lookup_map_seq_0.
    assert (Hj : dfs !! j = Some df).
    { pose proof (lookup_drop dfs j 0) as Hl. by rewrite Hdrop, Nat.add_0_r in Hl. }
    by rewrite Hj.
  - apply IH. replace (S j) with (j + 1)%nat by lia.
    by rewrite <- drop_drop, Hdrop.
Qed.

Lemma frames_heap_of (sm : dict (list (Z * Bar))) :
  frames (heap_of (values sm)) (refs_of sm) = sm.
Proof. by apply frames_heap_of_from. Qed.

Lemma keys_refs_of {V} (d : dict V) : keys (refs_of d) = keys d.
Proof.
  unfold keys, refs_of. apply fst_zip. rewrite length_fmap, length_seq. done.
Qed.

Lemma all_nonempty_frames (h : heap) (d : dict ref) :
  all_nonempty h d ↔ Forall (λ df, df ≠ []) (values (frames h d)).
Proof.
  unfold all_nonempty. rewrite values_frames. unfold values.
  by rewrite !Forall_fmap.
Qed.

Lemma rebased_frame_of_spec c (sm : dict (list (Z * Bar))) symbol (S : list (Z * Bar)) :
  NoDup (keys sm) →
  Forall (λ df, df ≠ []) (values sm) →
  dict_get symbol sm = Some S →
  rebased_frame_of c sm symbol = Some (rebased c S).
Proof.
  intros Hnd Hne Hget.
  set (h := heap_of (values sm)). set (sdd := refs_of sm).
  assert (Hfr : frames h sdd = sm) by apply frames_heap_of.
  destruct (normalize_all_returns c sdd h) as (rs & h' & Hrun & Hsub & Hall).
  { apply all_nonempty_frames. by rewrite Hfr. }
  { unfold sdd. by rewrite keys_refs_of. }
  destruct (dict_get_zip (λ r r', frame h' r' = rebased c (frame h r)) sdd rs symbol Hall)
    as (r & r' & Hr & Hr' & Hfr').
  { unfold sdd. rewrite keys_refs_of. by eapply dict_get_Some_keys. }
  unfold rebased_frame_of. fold h sdd. rewrite Hrun, Hr'. cbn. f_equal.
  rewrite Hfr'. f_equal.
  assert (Hget' : dict_get symbol (frames h sdd) = Some (frame h r)).
  { unfold frames. by rewrite dict_get_fmap, Hr. }
  rewrite Hfr in Hget'. congruence.
Qed.

Lemma keys_dict_set {V} k (v : V) (d : dict V) : k ∈ keys d → keys (dict_set k v d) = keys d.
Proof.
  unfold keys. induction d as [|[k' v'] d IH]; cbn.
  - by intros ?%elem_of_nil.
  - intros Hk. destruct (decide (k' = k)) as [->|Hne]; [done|]. cbn. f_equal.
    apply IH. apply elem_of_cons in Hk as [?|?]; [congruence | done].
Qed.

Lemma dict_get_set {V} k (v : V) (d : dict V) : dict_get k (dict_set k v d) = Some v.
Proof.
  induction d as [|[k' v'] d IH]; cbn.
  - by rewrite decide_True.
  - destruct (decide (k' = k)) as [->|Hne]; cbn.
    + by rewrite decide_True.
    + by rewrite decide_False.
Qed.

Lemma Forall_values_dict_set {V} (P : V → Prop) k (v : V) (d : dict V) :
  P v → Forall P (values d) → Forall P (values (dict_set k v d)).
Proof.
  unfold values. intros Hv. induction d as [|[k' v'] d IH]; cbn.
  - by repeat constructor.
  - intros [Hv' Hd]%Forall_cons. destruct (decide (k' = k)); cbn; constructor; auto.
Qed.

(** ** Sums never reach the negative zero

    The running sum of the inner loop starts at [+0]; no addition of a
    product to it gives [-0], so adding a zero of either sign to it changes
    nothing. *)

Lemma fexp_ge e : -1074 ≤ fexp 53 1024 e.
Proof. unfold fexp, emin. lia. Qed.

Lemma shr_fexp_exp m e l : -1074 ≤ (shr_fexp 53 1024 m e l).2.
Proof.
  unfold shr_fexp, shr. pose proof (fexp_ge (Zdigits2 m + e)) as Hf.
  destruct (fexp 53 1024 (Zdigits2 m + e) - e) eqn:Hn; cbn; lia.
Qed.

Lemma iter_pos_iter {A} (f : A → A) p x : SpecFloat.iter_pos f p x = Pos.iter f x p.
Proof.
  revert x. induction p as [p IH|p IH|]; intros x; cbn.
  - by rewrite !IH, <- !Pos.iter_swap.
  - by rewrite !IH.
  - done.
Qed.

Lemma shr_1_div2 mrs : 0 ≤ shr_m mrs → shr_m (shr_1 mrs) = Z.div2 (shr_m mrs).
Proof. destruct mrs as [[|[p|p|]|p] r s]; cbn; try done; lia. Qed.

Lemma iter_shr_1 p mrs :
  0 ≤ shr_m mrs → shr_m (SpecFloat.iter_pos shr_1 p mrs) = Z.shiftr (shr_m mrs) (Z.pos p).
Proof.
  intros Hm. rewrite iter_pos_iter.
  change (Z.shiftr (shr_m mrs) (Z.pos p)) with (Pos.iter Z.div2 (shr_m mrs) p).
  induction p as [|p IH] using Pos.peano_ind.
  - cbn. by apply shr_1_div2.
  - rewrite !Pos.iter_succ, <- IH. apply shr_1_div2. rewrite IH.
    change (Pos.iter Z.div2 (shr_m mrs) p) with (Z.shiftr (shr_m mrs) (Z.pos p)).
    by apply Z.shiftr_nonneg.
Qed.

Lemma digits_lower m : 2 ^ (Z.pos (digits2_pos m) - 1) ≤ Z.pos m.
Proof.
  induction m as [m IH|m IH|]; cbn [digits2_pos]; [| |done].
  - rewrite Pos2Z.inj_succ. replace (Z.succ (Z.pos (digits2_pos m)) - 1)
      with (Z.succ (Z.pos (digits2_pos m) - 1)) by lia.
    rewrite Z.pow_succ_r by lia. lia.
  - rewrite Pos2Z.inj_succ. replace (Z.succ (Z.pos (digits2_pos m)) - 1)
      with (Z.succ (Z.pos (digits2_pos m) - 1)) by lia.
    rewrite Z.pow_succ_r by lia. lia.
Qed.

Lemma shr_fexp_pos m e l :
  -1074 ≤ e → 0 < shr_m (shr_fexp 53 1024 (Z.pos m) e l).1.
Proof.
  intros He. unfold shr_fexp, shr. cbn [Zdigits2].
  destruct (fexp 53 1024 (Z.pos (digits2_pos m) + e) - e) as [|p|p] eqn:Hn; cbn [fst].
  - by destruct l as [|[]].
  - rewrite iter_shr_1 by (by destruct l as [|[]]).
    replace (shr_m (shr_record_of_loc (Z.pos m) l)) with (Z.pos m) by (by destruct l as [|[]]).
    rewrite Z.shiftr_div_pow2 by lia.
    assert (Hp : Z.pos p ≤ Z.pos (digits2_pos m) - 1).
    { unfold fexp, emin in Hn. lia. }
    pose proof (digits_lower m) as Hd.
    assert (2 ^ Z.pos p ≤ 2 ^ (Z.pos (digits2_pos m) - 1)) by (apply Z.pow_le_mono_r; lia).
    assert (0 < 2 ^ Z.pos p) by (apply Z.pow_pos_nonneg; lia).
    apply Z.lt_le_trans with 1; [lia|]. apply Z.div_le_lower_bound; lia.
  - by destruct l as [|[]].
Qed.

Lemma round_nearest_even_pos m l : 0 < m → 0 < round_nearest_even m l.
Proof. intros Hm. destruct l as [|[]]; cbn; try done; [destruct (Z.even m)|]; lia. Qed.

Lemma round_aux_nice s m e l :
  -1074 ≤ e → nice (binary_round_aux 53 1024 s (Z.pos m) e l)
             ∧ ∀ s', binary_round_aux 53 1024 s (Z.pos m) e l ≠ S754_zero s'.
Proof.
  intros He. unfold binary_round_aux.
  pose proof (shr_fexp_pos m e l He) as Hpos.
  pose proof (shr_fexp_exp (Z.pos m) e l) as Hexp.
  destruct (shr_fexp 53 1024 (Z.pos m) e l) as [mrs' e']. cbn [fst snd] in *.
  pose proof (round_nearest_even_pos (shr_m mrs') (loc_of_shr_record mrs') Hpos) as Hr.
  destruct (round_nearest_even (shr_m mrs') (loc_of_shr_record mrs')) as [|m'|m'] eqn:Hm'; try lia.
  pose proof (shr_fexp_pos m' e' loc_Exact Hexp) as Hpos'.
  pose proof (shr_fexp_exp (Z.pos m') e' loc_Exact) as Hexp'.
  destruct (shr_fexp 53 1024 (Z.pos m') e' loc_Exact) as [mrs'' e'']. cbn [fst snd] in *.
  destruct (shr_m mrs'') as [|m''|m'']; try lia.
  destruct (e'' <=? 1024 - 53); done.
Qed.

Lemma mul_exp_ok (x y : F64.t) : exp_ok ((x * y)%f64).
Proof.
  destruct x as [sx|sx| |sx mx ex], y as [sy|sy| |sy my ey]; try done.
  unfold F64.mul, SFmul, binary_round_aux. change F64.prec with 53. change F64.emax with 1024.
  pose proof (shr_fexp_exp (Z.pos (mx * my)) (ex + ey) loc_Exact) as Hexp.
  destruct (shr_fexp 53 1024 (Z.pos (mx * my)) (ex + ey) loc_Exact) as [mrs' e'].
  set (m' := round_nearest_even (shr_m mrs') (loc_of_shr_record mrs')).
  pose proof (shr_fexp_exp m' e' loc_Exact) as Hexp'.
  destruct (shr_fexp 53 1024 m' e' loc_Exact) as [mrs'' e'']. cbn [snd] in *.
  destruct (shr_m mrs''); [done| |done].
  by destruct (e'' <=? 1024 - 53).
Qed.

Lemma shl_align_exp mx ex ex' : -1074 ≤ ex → -1074 ≤ ex' → -1074 ≤ (shl_align mx ex ex').2.
Proof. intros. unfold shl_align. by destruct (ex' - ex). Qed.

Lemma binary_round_nice s m e : -1074 ≤ e → nice (binary_round 53 1024 s m e).
Proof.
  intros He. unfold binary_round.
  pose proof (shl_align_exp m e (fexp 53 1024 (Z.pos (digits2_pos m) + e)) He (fexp_ge _)) as H.
  destruct (shl_align m e (fexp 53 1024 (Z.pos (digits2_pos m) + e))) as [mz ez].
  by apply round_aux_nice.
Qed.

Lemma add_nice (a t : F64.t) : nice a → exp_ok t → nice ((a + t)%f64).
Proof.
  unfold F64.add. change F64.prec with 53. change F64.emax with 1024.
  destruct a as [sa|sa| |sa ma ea], t as [st|st| |st mt et]; cbn; try done.
  - intros -> _. by destruct st.
  - by destruct sa, st.
  - intros Ha Ht. unfold binary_normalize.
    destruct (cond_Zopp sa (Z.pos (shl_align ma ea (ea `min` et)).1) +
              cond_Zopp st (Z.pos (shl_align mt et (ea `min` et)).1)); [done|..];
      apply binary_round_nice; lia.
Qed.

Lemma add_zero_r (a : F64.t) s : nice a → (a + S754_zero s)%f64 = a.
Proof. destruct a as [sa|sa| |sa ma ea]; cbn; try done. intros ->. by destruct s. Qed.

(** ** A weight of zero *)

Lemma weight_fraction_zero : weight_fraction 0 = F64.zero.
Proof. by vm_compute. Qed.

Lemma mul_zero_finite (x : F64.t) :
  F64.is_finite x = true → ∃ s, (x * F64.zero)%f64 = S754_zero s.
Proof. destruct x as [s|s| |s m e]; try done; intros _; by eexists. Qed.

Lemma weighted_fold_nice c (sm : dict (list (Z * Bar))) d (w : dict Z) : ∀ a,
  nice a →
  nice (foldl (λ acc sw, acc + rebased_value c sm sw.1 d * weight_fraction sw.2)%f64 a w).
Proof.
  induction w as [|[sym wt] w IH]; intros a Ha; [done|].
  cbn. apply IH, add_nice; [done | apply mul_exp_ok].
Qed.

Lemma weighted_sum_zero_weight c (sm : dict (list (Z * Bar))) (w1 w2 : dict Z) symbol d :
  F64.is_finite (rebased_value c sm symbol d) = true →
  weighted_sum c sm (w1 ++ (symbol, 0) :: w2) d = weighted_sum c sm (w1 ++ w2) d.
Proof.
  intros Hfin. unfold weighted_sum. rewrite !foldl_app. cbn [foldl fst snd]. f_equal.
  rewrite weight_fraction_zero.
  destruct (mul_zero_finite _ Hfin) as [s ->].
  apply add_zero_r, weighted_fold_nice. done.
Qed.

Lemma aggregate_zero_weight c (h : heap) (sdd : dict ref) (w1 w2 : dict Z) symbol d0 :
  NoDup (keys sdd) →
  all_nonempty h sdd →
  unique_labels h sdd →
  weights_covered (w1 ++ w2) sdd →
  symbol ∈ keys sdd →
  Forall (λ df, d0 ∈ index df) (values (frames h sdd)) →
  (∀ d, d ∈ common_dates (values (frames h sdd)) →
        F64.is_finite (rebased_value c (frames h sdd) symbol d) = true) →
  ∃ (out : list (Z * F64.t)) (h1 h2 : heap),
    aggregate c sdd (w1 ++ w2) h = (Returns out, h1)
    ∧ aggregate c sdd (w1 ++ (symbol, 0) :: w2) h = (Returns out, h2)
    ∧ ∀ d v, (d, v) ∈ out → v = weighted_sum c (frames h sdd) (w1 ++ w2) d.
Proof.
  intros Hnd Hne Huniq Hcov Hsym Hd0 Hfin.
  assert (Hsdd : sdd ≠ []) by (intros ->; by apply elem_of_nil in Hsym).
  assert (Hvals : values (frames h sdd) ≠ []).
  { rewrite values_frames. unfold values. by destruct sdd. }
  assert (Hcommon : common_dates (values (frames h sdd)) ≠ ∅).
  { intros Hempty. apply (elem_of_common_dates d0 _ Hvals) in Hd0.
    rewrite Hempty in Hd0. by apply not_elem_of_empty in Hd0. }
  destruct (aggregate_returns c h sdd (w1 ++ w2)) as (h1 & Hrun1 & _); [done..|].
  destruct (aggregate_returns c h sdd (w1 ++ (symbol, 0) :: w2)) as (h2 & Hrun2 & _); [done..| |done|].
  { unfold weights_covered, keys in *. rewrite fmap_app, fmap_cons. cbn.
    rewrite fmap_app in Hcov. intros k [Hk|[->|Hk]%elem_of_cons]%elem_of_app; [|done|].
    - apply Hcov, elem_of_app. by left.
    - apply Hcov, elem_of_app. by right. }
  eexists _, h1, h2. split; [exact Hrun1|]. split.
  - rewrite Hrun2. do 2 f_equal. apply Forall_fmap_ext_1, Forall_forall.
    intros d Hd. f_equal. apply weighted_sum_zero_weight, Hfin.
    by apply elem_of_sorted_common_dates.
  - intros d v [_ ->]%elem_of_dated. done.
Qed.

(* ===================================================================== *)
(** * The claims *)
(* ===================================================================== *)

(** C1.  On a symbol dictionary of non-empty, uniquely dated series and a
    weight map over its symbols, the value [calculate_portfolio_performance]
    emits at a common date [d] is the sum, over the weight map in its order
    and from zero, of [rebasedValue(symbol, d) * (weight / 100)]; and for
    A = [100, 200], B = [50, 50] on the same two dates with weights 50/50 the
    composite is [100, 150]. *)
Theorem C1_weighted_sum_at_common_dates :
  (∀ (h : heap) (stock_data_dict : dict ref) (weights : dict Z) (d : Z),
     NoDup (keys stock_data_dict) →
     stock_data_dict ≠ [] →
     all_nonempty h stock_data_dict →
     unique_labels h stock_data_dict →
     weights_covered weights stock_data_dict →
     Forall (λ df, d ∈ index df) (values (frames h stock_data_dict)) →
     ∃ (out : list (Z * F64.t)) (h' : heap),
       calculate_portfolio_performance stock_data_dict weights h = (Returns out, h')
       ∧ ∀ v, (d, v) ∈ out ↔ v = weighted_sum Close (frames h stock_data_dict) weights d)
  ∧ run calculate_portfolio_performance sample_seriesMap sample_weights
    = Returns [(1, F64.of_Z 100); (2, F64.of_Z 150)].
Proof.
  split; [|by vm_compute].
  intros h sdd w d Hnd Hsdd Hne Huniq Hcov Hd.
  assert (Hvals : values (frames h sdd) ≠ []).
  { rewrite values_frames. unfold values. by destruct sdd. }
  apply (elem_of_common_dates d _ Hvals) in Hd.
  destruct (aggregate_returns Close h sdd w) as (h' & Hrun & _); [done..| |].
  { intros Hempty. rewrite Hempty in Hd. by apply not_elem_of_empty in Hd. }
  eexists _, h'. split; [exact Hrun|].
  intros v. rewrite elem_of_dated, elem_of_sorted_common_dates.
  split; [by intros [_ ->] | by intros ->].
Qed.

Lemma C1_witness :
  ∃ (out : list (Z * F64.t)) (h' : heap),
    calculate_portfolio_performance (refs_of sample_seriesMap) sample_weights
      (heap_of (values sample_seriesMap)) = (Returns out, h')
    ∧ ∀ v, (2, v) ∈ out
           ↔ v = weighted_sum Close
                   (frames (heap_of (values sample_seriesMap)) (refs_of sample_seriesMap))
                   sample_weights 2.
Proof.
  destruct sample_hyps as (H1 & H2 & H3 & H4).
  apply (proj1 C1_weighted_sum_at_common_dates); try done.
  repeat constructor; by_compute.
Defined.

(** C2, as stated, fails: on two one-bar series with different dates the
    call raises and has no output whose dates could be the (empty)
    intersection; and so it does when the weight map names a symbol that has
    no series. *)
Lemma C2_counterexample :
  Forall is_series (values (disjoint_seriesMap Close))
  ∧ (¬ ∃ out : list (Z * F64.t),
         run calculate_portfolio_performance (disjoint_seriesMap Close) sample_weights
         = Returns out)
  ∧ Forall is_series (values sample_seriesMap)
  ∧ (¬ ∃ out : list (Z * F64.t),
         run calculate_portfolio_performance sample_seriesMap stray_weights = Returns out).
Proof.
  split; [|split; [|split]].
  - repeat constructor; by_compute.
  - intros [out Hout]. vm_compute in Hout. discriminate.
  - repeat constructor; by_compute.
  - intros [out Hout]. vm_compute in Hout. discriminate.
Qed.

(** C2, amended.  On a symbol dictionary of non-empty, uniquely dated series
    that share at least one date, and a weight map over its symbols, the
    call returns; the dates of its output are exactly the dates present in
    every input series, in strictly ascending order; so the output has as
    many entries as there are common dates (one for one common date). *)
Theorem C2_output_dates (h : heap) (stock_data_dict : dict ref) (weights : dict Z) (d0 : Z) :
  NoDup (keys stock_data_dict) →
  stock_data_dict ≠ [] →
  all_nonempty h stock_data_dict →
  unique_labels h stock_data_dict →
  weights_covered weights stock_data_dict →
  Forall (λ df, d0 ∈ index df) (values (frames h stock_data_dict)) →
  ∃ (out : list (Z * F64.t)) (h' : heap),
    calculate_portfolio_performance stock_data_dict weights h = (Returns out, h')
    ∧ (∀ d, d ∈ out.*1 ↔ Forall (λ df, d ∈ index df) (values (frames h stock_data_dict)))
    ∧ StronglySorted Z.lt out.*1
    ∧ length out = size (common_dates (values (frames h stock_data_dict))).
Proof.
  intros Hnd Hsdd Hne Huniq Hcov Hd0.
  assert (Hvals : values (frames h stock_data_dict) ≠ []).
  { rewrite values_frames. unfold values. by destruct stock_data_dict. }
  destruct (aggregate_returns Close h stock_data_dict weights) as (h' & Hrun & _); [done..| |].
  { intros Hempty. apply (elem_of_common_dates d0 _ Hvals) in Hd0.
    rewrite Hempty in Hd0. by apply not_elem_of_empty in Hd0. }
  eexists _, h'. split; [exact Hrun|]. rewrite fst_dated. split; [|split].
  - intros d. by rewrite elem_of_sorted_common_dates, elem_of_common_dates.
  - apply StronglySorted_sorted_common_dates.
  - rewrite length_fmap. apply length_sorted_common_dates.
Qed.

Lemma C2_witness :
  ∃ (out : list (Z * F64.t)) (h' : heap),
    calculate_portfolio_performance (refs_of overlap_seriesMap) sample_weights
      (heap_of (values overlap_seriesMap)) = (Returns out, h')
    ∧ (∀ d, d ∈ out.*1
            ↔ Forall (λ df, d ∈ index df)
                (values (frames (heap_of (values overlap_seriesMap))
                           (refs_of overlap_seriesMap))))
    ∧ StronglySorted Z.lt out.*1
    ∧ length out
      = size (common_dates (values (frames (heap_of (values overlap_seriesMap))
                                      (refs_of overlap_seriesMap)))).
Proof.
  apply (C2_output_dates _ _ _ 2).
  - by_compute.
  - done.
  - by repeat constructor.
  - repeat constructor; by_compute.
  - unfold weights_covered. by_compute.
  - repeat constructor; by_compute.
Defined.

(** C3, as stated, fails: a series whose first close is 0 is rebased to NaN
    at its first date, not to 100. *)
Lemma C3_counterexample :
  is_series zero_first_series
  ∧ ∃ df, rebased_frame_of Close [("A"%string, zero_first_series)] "A" = Some df
          ∧ value_at Close df 1 = F64.nan
          ∧ value_at Close df 1 ≠ F64.hundred.
Proof.
  split; [repeat constructor; by_compute|].
  eexists. split; [by vm_compute|]. split; [by vm_compute|]. by vm_compute.
Qed.

(** C3, amended.  For every series S of the dictionary (non-empty, dates
    strictly ascending), the frame step 1 leaves for its symbol is S with
    every value of the chosen field divided by the value at S's earliest date
    and multiplied by 100; its value at that date is exactly 100 whenever the
    series' value there is a finite non-zero number. *)
Theorem C3_rebased_series (c : column) (h : heap) (stock_data_dict : dict ref)
    (symbol : string) (r : ref) (S : list (Z * Bar)) :
  NoDup (keys stock_data_dict) →
  all_nonempty h stock_data_dict →
  dict_get symbol stock_data_dict = Some r →
  h !! r = Some S →
  is_series S →
  ∃ (normalized_dfs : dict ref) (h' : heap) (r' : ref) (first : Z),
    normalize_all c stock_data_dict h = (Returns normalized_dfs, h')
    ∧ dict_get symbol normalized_dfs = Some r'
    ∧ first ∈ index S ∧ (∀ d, d ∈ index S → first ≤ d)
    ∧ h' !! r'
      = Some ((λ row, (row.1,
                 set_col c ((get_col c row.2 / value_at c S first) * F64.hundred)%f64 row.2))
                <$> S)
    ∧ (F64.is_finite_nonzero (value_at c S first) = true →
       value_at c (frame h' r') first = F64.hundred).
Proof.
  intros Hnd Hne Hget Hr [HS Hsorted].
  destruct (normalize_all_returns c stock_data_dict h Hne Hnd) as (rs & h' & Hrun & Hsub & Hall).
  destruct (dict_get_zip (λ r r', frame h' r' = rebased c (frame h r))
              stock_data_dict rs symbol Hall) as (r0 & r' & Hr0 & Hr' & Hfr).
  { by eapply dict_get_Some_keys. }
  assert (r0 = r) as -> by congruence.
  rewrite (frame_lookup h r S Hr) in Hfr.
  destruct S as [|[d0 b0] S]; [done|].
  exists (zip (keys stock_data_dict) rs), h', r', d0.
  split; [done|]. split; [done|]. split; [by left|].
  split; [by apply StronglySorted_lt_head|].
  rewrite value_at_head.
  assert (Hlive : h' !! r' = Some (rebased c ((d0, b0) :: S))).
  { unfold frame in Hfr. destruct (h' !! r') as [df|]; cbn in Hfr; [by subst | done]. }
  split; [exact Hlive|].
  intros Hfin. rewrite Hfr. unfold rebased. cbn [fmap list_fmap]. cbn [fst snd].
  rewrite value_at_head, get_set_col, div_self by done. apply one_times_hundred.
Qed.

Lemma C3_witness :
  ∃ (normalized_dfs : dict ref) (h' : heap) (r' : ref) (first : Z),
    normalize_all Close (refs_of sample_seriesMap) sample_heap = (Returns normalized_dfs, h')
    ∧ dict_get "B" normalized_dfs = Some r'
    ∧ first ∈ index sample_B ∧ (∀ d, d ∈ index sample_B → first ≤ d)
    ∧ h' !! r'
      = Some ((λ row, (row.1,
                 set_col Close ((get_col Close row.2 / value_at Close sample_B first)
                                * F64.hundred)%f64 row.2))
                <$> sample_B)
    ∧ (F64.is_finite_nonzero (value_at Close sample_B first) = true →
       value_at Close (frame h' r') first = F64.hundred).
Proof.
  destruct sample_hyps as (H1 & H2 & H3 & H4).
  apply (C3_rebased_series Close sample_heap (refs_of sample_seriesMap) "B" 1%nat sample_B).
  - exact H1.
  - exact H2.
  - reflexivity.
  - reflexivity.
  - split; [done | by_compute].
Defined.

(** C4.  On series with no common date both operations raise the
    [KeyError] of [set_index('date')] instead of returning an empty
    composite. *)
Theorem C4_disjoint_dates_raise :
  run calculate_portfolio_performance (disjoint_seriesMap Close) sample_weights
  = Raises (KeyError "None of ['date'] are in the columns")
  ∧ run calculate_combined_volume (disjoint_seriesMap Volume) sample_weights
    = Raises (KeyError "None of ['date'] are in the columns").
Proof. split; by vm_compute. Qed.

(** C5, as stated, fails: with a series of zero bars the call raises the
    out-of-bounds [IndexError] of [iloc[0]], whose message is not the
    empty-series one. *)
Lemma C5_counterexample :
  ∃ e, run calculate_portfolio_performance empty_seriesMap sample_weights = Raises e
       ∧ e = IndexError "single positional indexer is out-of-bounds"
       ∧ message e ≠ "cannot rebase empty series"%string.
Proof. eexists. split; [by vm_compute|]. split; [done | by vm_compute]. Qed.

(** C5, amended.  If any series of the dictionary has zero bars, both
    operations raise the [IndexError] "single positional indexer is
    out-of-bounds" of the read of its first row: the call does not return, and
    so produces no NaN. *)
Theorem C5_empty_series_raises (h : heap) (stock_data_dict : dict ref) (weights : dict Z)
    (symbol : string) (r : ref) :
  (symbol, r) ∈ stock_data_dict →
  h !! r = Some [] →
  (∃ h' : heap,
     calculate_portfolio_performance stock_data_dict weights h
     = (Raises (IndexError "single positional indexer is out-of-bounds"), h'))
  ∧ (∃ h' : heap,
       calculate_combined_volume stock_data_dict weights h
       = (Raises (IndexError "single positional indexer is out-of-bounds"), h')).
Proof.
  intros Hin Hr. split; by eapply aggregate_raises_on_empty_series.
Qed.

Lemma C5_witness :
  (∃ h' : heap,
     calculate_portfolio_performance (refs_of empty_seriesMap) sample_weights
       (heap_of (values empty_seriesMap))
     = (Raises (IndexError "single positional indexer is out-of-bounds"), h'))
  ∧ (∃ h' : heap,
       calculate_combined_volume (refs_of empty_seriesMap) sample_weights
         (heap_of (values empty_seriesMap))
       = (Raises (IndexError "single positional indexer is out-of-bounds"), h')).
Proof.
  apply (C5_empty_series_raises _ _ _ "B" 1%nat).
  - by_compute.
  - reflexivity.
Defined.

(** C6, as stated, fails: B's only bar has close 0, so its rebased value is
    NaN; left out of the weight map it leaves the composite at 100, with
    weight 0 it turns the composite into NaN. *)
Lemma C6_counterexample :
  run calculate_portfolio_performance (nan_seriesMap Close) only_A
  = Returns [(1, F64.of_Z 100)]
  ∧ run calculate_portfolio_performance (nan_seriesMap Close) A_and_zero_B
    = Returns [(1, F64.nan)]
  ∧ run calculate_portfolio_performance (nan_seriesMap Close) only_A
    ≠ run calculate_portfolio_performance (nan_seriesMap Close) A_and_zero_B.
Proof. split; [by vm_compute|]. split; by vm_compute. Qed.

(** C6, amended.  On a symbol dictionary of non-empty, uniquely dated series
    with a common date and a weight map over its symbols, a symbol that has a
    series but no weight does not make the call fail: the call returns, and
    every value it emits is the weighted sum over the symbols of the weight
    map only.  The output is the one the call gives when the symbol is added
    to the weight map, at any position, with weight 0, provided the symbol's
    rebased value is finite at every common date (a NaN or an infinity times
    0 is NaN).  Both operations behave so. *)
Theorem C6_absent_symbol_is_zero_weight (h : heap) (stock_data_dict : dict ref)
    (w1 w2 : dict Z) (symbol : string) (d0 : Z) :
  NoDup (keys stock_data_dict) →
  all_nonempty h stock_data_dict →
  unique_labels h stock_data_dict →
  weights_covered (w1 ++ w2) stock_data_dict →
  symbol ∈ keys stock_data_dict →
  symbol ∉ keys (w1 ++ w2) →
  Forall (λ df, d0 ∈ index df) (values (frames h stock_data_dict)) →
  (∃ out : list (Z * F64.t),
     (∃ h1 : heap,
        calculate_portfolio_performance stock_data_dict (w1 ++ w2) h = (Returns out, h1))
     ∧ (∀ d v, (d, v) ∈ out →
               v = weighted_sum Close (frames h stock_data_dict) (w1 ++ w2) d)
     ∧ ((∀ d, d ∈ common_dates (values (frames h stock_data_dict)) →
              F64.is_finite (rebased_value Close (frames h stock_data_dict) symbol d) = true) →
        ∃ h2 : heap,
          calculate_portfolio_performance stock_data_dict (w1 ++ (symbol, 0) :: w2) h
          = (Returns out, h2)))
  ∧ (∃ out : list (Z * F64.t),
       (∃ h1 : heap,
          calculate_combined_volume stock_data_dict (w1 ++ w2) h = (Returns out, h1))
       ∧ (∀ d v, (d, v) ∈ out →
                 v = weighted_sum Volume (frames h stock_data_dict) (w1 ++ w2) d)
       ∧ ((∀ d, d ∈ common_dates (values (frames h stock_data_dict)) →
                F64.is_finite (rebased_value Volume (frames h stock_data_dict) symbol d) = true) →
          ∃ h2 : heap,
            calculate_combined_volume stock_data_dict (w1 ++ (symbol, 0) :: w2) h
            = (Returns out, h2))).
Proof.
  intros Hnd Hne Huniq Hcov Hsym _ Hd0.
  assert (Hvals : values (frames h stock_data_dict) ≠ []).
  { rewrite values_frames. unfold values. destruct stock_data_dict; [|done].
    by apply elem_of_nil in Hsym. }
  assert (Hcommon : common_dates (values (frames h stock_data_dict)) ≠ ∅).
  { intros Hempty. apply (elem_of_common_dates d0 _ Hvals) in Hd0.
    rewrite Hempty in Hd0. by apply not_elem_of_empty in Hd0. }
  assert (Hgen : ∀ c, ∃ out : list (Z * F64.t),
     (∃ h1 : heap, aggregate c stock_data_dict (w1 ++ w2) h = (Returns out, h1))
     ∧ (∀ d v, (d, v) ∈ out → v = weighted_sum c (frames h stock_data_dict) (w1 ++ w2) d)
     ∧ ((∀ d, d ∈ common_dates (values (frames h stock_data_dict)) →
              F64.is_finite (rebased_value c (frames h stock_data_dict) symbol d) = true) →
        ∃ h2 : heap,
          aggregate c stock_data_dict (w1 ++ (symbol, 0) :: w2) h = (Returns out, h2))).
  { intros c.
    destruct (aggregate_returns c h stock_data_dict (w1 ++ w2)) as (h1 & Hrun1 & _); [done..|].
    eexists. split; [by exists h1|]. split.
    - intros d v [_ ->]%elem_of_dated. done.
    - intros Hfin.
      destruct (aggregate_zero_weight c h stock_data_dict w1 w2 symbol d0)
        as (out & h1' & h2 & Hrun1' & Hrun2 & _); [done..|].
      exists h2. rewrite Hrun2. congruence. }
  split; apply Hgen.
Qed.

Lemma C6_witness :
  ∃ out : list (Z * F64.t),
    (∃ h1 : heap,
       calculate_portfolio_performance (refs_of sample_seriesMap) [("A"%string, 100)]
         sample_heap = (Returns out, h1))
    ∧ (∃ h2 : heap,
         calculate_portfolio_performance (refs_of sample_seriesMap)
           [("A"%string, 100); ("B"%string, 0)] sample_heap = (Returns out, h2)).
Proof.
  destruct sample_hyps as (H1 & H2 & H3 & _).
  destruct (C6_absent_symbol_is_zero_weight sample_heap (refs_of sample_seriesMap)
              [("A"%string, 100)] [] "B" 1) as [(out & Hrun1 & _ & Hrun2) _].
  - exact H1.
  - exact H2.
  - exact H3.
  - unfold weights_covered. by_compute.
  - by_compute.
  - by_compute.
  - repeat constructor; by_compute.
  - exists out. split; [exact Hrun1|]. apply Hrun2.
    intros d Hd. apply elem_of_sorted_common_dates in Hd.
    assert (Hs : sorted_common_dates (values (frames sample_heap (refs_of sample_seriesMap)))
                 = [1; 2]) by (by vm_compute).
    rewrite Hs in Hd.
    apply elem_of_cons in Hd as [->|Hd]; [by vm_compute|].
    apply elem_of_cons in Hd as [->|Hd]; [by vm_compute|].
    by apply elem_of_nil in Hd.
Defined.

(** C7, as stated, fails: a payload with two bars of one timestamp is
    accepted, and the frame built from it has that date twice. *)
Lemma C7_counterexample :
  ∃ df, process_stock_data repeated_payload = Returns df
        ∧ index df = [0; 86400000; 86400000]
        ∧ ¬ NoDup (index df).
Proof.
  eexists. split; [by vm_compute|]. split; [by vm_compute|].
  vm_compute. intros Hnd. apply NoDup_cons in Hnd as [_ Hnd].
  apply NoDup_cons in Hnd as [Hnin _]. apply Hnin. by left.
Qed.

(** C7, amended.  For every payload the table builder accepts, whatever the
    order of its bars, the frame it returns has at least one row, holds the
    timestamps of the payload's bars (each as often as the payload has it)
    in ascending order, and has strictly ascending (so unique) dates exactly
    when the payload's timestamps are unique. *)
Theorem C7_sorted_by_date (data : Payload) (df : list (Z * Bar)) :
  process_stock_data data = Returns df →
  ∃ rs : list RawBar,
    results data = Some rs
    ∧ df ≠ []
    ∧ index df ≡ₚ raw_t <$> rs
    ∧ StronglySorted Z.le (index df)
    ∧ (NoDup (raw_t <$> rs) ↔ StronglySorted Z.lt (index df)).
Proof.
  unfold process_stock_data. destruct (results data) as [rs|] eqn:Hrs; [|done].
  destruct rs as [|r rs]; [done|].
  destruct (forallb _ _); [|done]. intros [= Hdf].
  exists (r :: rs). split; [done|].
  assert (Hperm : index df ≡ₚ raw_t <$> r :: rs).
  { rewrite <- Hdf. etrans; [apply index_sort_index|].
    replace (raw_t <$> r :: rs) with (index (to_row <$> r :: rs)) by apply index_to_row.
    reflexivity. }
  assert (Hsorted : StronglySorted Z.le (index df)).
  { rewrite <- Hdf. apply StronglySorted_index. unfold sort_index.
    apply StronglySorted_merge_sort; apply _. }
  clear Hdf. split; [|split; [done|split; [done|]]].
  - intros ->. by apply Permutation_nil_cons in Hperm.
  - rewrite <- Hperm. split.
    + by apply StronglySorted_le_lt.
    + clear. induction 1 as [|x l _ IH Hx]; constructor; [|done].
      intros Hin. rewrite Forall_forall in Hx. specialize (Hx x Hin). lia.
Qed.

Lemma C7_witness :
  ∃ rs : list RawBar,
    results shuffled_payload = Some rs
    ∧ shuffled_frame ≠ []
    ∧ index shuffled_frame ≡ₚ raw_t <$> rs
    ∧ StronglySorted Z.le (index shuffled_frame)
    ∧ (NoDup (raw_t <$> rs) ↔ StronglySorted Z.lt (index shuffled_frame)).
Proof. apply (C7_sorted_by_date shuffled_payload). by vm_compute. Defined.

(** C8, as stated, fails: rebasing [1, 3] gives [100, 300], rebasing the
    series scaled by the positive double 0.1 does not (0.1·3 and the quotient
    by 0.1 both round). *)
Lemma C8_counterexample :
  is_series one_three
  ∧ SFltb F64.zero tenth = true
  ∧ rebased_frame_of Close [("A"%string, scale Close tenth one_three)] "A"
    ≠ rebased_frame_of Close [("A"%string, one_three)] "A".
Proof.
  split; [split; [done | by_compute]|]. split; [by vm_compute|]. by vm_compute.
Qed.

(** C8, amended.  Rebasing is invariant under scaling by a power of two
    [k = 2^n] (a normal double) when every value of the chosen field is a
    zero, an infinity, NaN, or a double with a full mantissa whose exponent
    stays in range when moved by [n] (the products by [k] are then exact):
    the rebased frame of [k·S] is the rebased frame of [S]. *)
Theorem C8_scale_by_power_of_two (c : column) (n : Z)
    (seriesMap : dict (list (Z * Bar))) (symbol : string) (S : list (Z * Bar)) :
  NoDup (keys seriesMap) →
  Forall (λ df, df ≠ []) (values seriesMap) →
  dict_get symbol seriesMap = Some S →
  -1022 ≤ n ≤ 1023 →
  Forall (scalable n) (column_values c S) →
  rebased_frame_of c (dict_set symbol (scale c (F64.pow2 n) S) seriesMap) symbol
  = rebased_frame_of c seriesMap symbol.
Proof.
  intros Hnd Hne Hget _ Hscal.
  assert (Hk : symbol ∈ keys seriesMap) by (by eapply dict_get_Some_keys).
  assert (HS : S ≠ []).
  { apply dict_get_elem_of in Hget. rewrite Forall_forall in Hne. apply Hne.
    unfold values. apply list_elem_of_fmap. by exists (symbol, S). }
  rewrite (rebased_frame_of_spec c seriesMap symbol S) by done.
  rewrite (rebased_frame_of_spec c _ symbol (scale c (F64.pow2 n) S)).
  - by rewrite rebased_scale_pow2.
  - by rewrite keys_dict_set.
  - apply Forall_values_dict_set; [|done]. unfold scale. by destruct S.
  - apply dict_get_set.
Qed.

Lemma C8_witness :
  rebased_frame_of Close
    (dict_set "B" (scale Close (F64.pow2 3) sample_B) sample_seriesMap) "B"
  = rebased_frame_of Close sample_seriesMap "B".
Proof.
  apply (C8_scale_by_power_of_two Close 3 sample_seriesMap "B" sample_B).
  - by_compute.
  - by repeat constructor.
  - reflexivity.
  - lia.
  - repeat constructor; by vm_compute.
Defined.

(** C9, as stated, fails: A has bars on dates 1 and 2, B on dates 2 and 3;
    the code rebases A on date 1 and emits 150 at the common date 2, the
    other order rebases A on date 2 and gives 100. *)
Lemma C9_counterexample :
  Forall is_series (values overlap_seriesMap)
  ∧ run calculate_portfolio_performance overlap_seriesMap sample_weights
    = Returns [(2, F64.of_Z 150)]
  ∧ intersect_then_rebase Close overlap_seriesMap sample_weights = [(2, F64.of_Z 100)]
  ∧ run calculate_portfolio_performance overlap_seriesMap sample_weights
    ≠ Returns (intersect_then_rebase Close overlap_seriesMap sample_weights).
Proof.
  split; [repeat constructor; by_compute|].
  split; [by vm_compute|]. split; [by vm_compute|]. by vm_compute.
Qed.

(** C9, amended.  On a symbol dictionary of non-empty, uniquely dated series
    and a weight map over its symbols, when the first date of every series
    is itself a date of all the series, restricting every series to the
    common dates and then rebasing it on its first row gives the composite
    the code returns. *)
Theorem C9_intersect_then_rebase (h : heap) (stock_data_dict : dict ref) (weights : dict Z) :
  NoDup (keys stock_data_dict) →
  stock_data_dict ≠ [] →
  all_nonempty h stock_data_dict →
  unique_labels h stock_data_dict →
  weights_covered weights stock_data_dict →
  Forall (starts_in (common_dates (values (frames h stock_data_dict))))
    (values (frames h stock_data_dict)) →
  ∃ h' : heap,
    calculate_portfolio_performance stock_data_dict weights h
    = (Returns (intersect_then_rebase Close (frames h stock_data_dict) weights), h').
Proof.
  intros Hnd Hsdd Hne Huniq Hcov Hstart.
  destruct (aggregate_returns Close h stock_data_dict weights) as (h' & Hrun & _); [done..| |].
  { intros Hempty. rewrite Hempty in Hstart.
    assert (Hvals : values (frames h stock_data_dict) ≠ []).
    { rewrite values_frames. unfold values. by destruct stock_data_dict. }
    destruct (values (frames h stock_data_dict)) as [|df dfs]; [done|].
    apply Forall_cons in Hstart as [(d0 & _ & Hd0) _]. by apply not_elem_of_empty in Hd0. }
  exists h'. unfold calculate_portfolio_performance. rewrite Hrun. do 2 f_equal.
  unfold intersect_then_rebase.
  fold (sorted_common_dates (values (frames h stock_data_dict))).
  apply Forall_fmap_ext_1, Forall_forall. intros d Hd. f_equal.
  apply elem_of_sorted_common_dates in Hd.
  unfold weighted_sum. apply foldl_ext_in. intros a [symbol wt] _. cbn.
  by rewrite rebased_value_restrict.
Qed.

Lemma C9_witness :
  ∃ h' : heap,
    calculate_portfolio_performance (refs_of sample_seriesMap) sample_weights sample_heap
    = (Returns (intersect_then_rebase Close (frames sample_heap (refs_of sample_seriesMap))
                  sample_weights), h').
Proof.
  destruct sample_hyps as (H1 & H2 & H3 & H4).
  apply C9_intersect_then_rebase; try done.
  repeat constructor; exists 1; (split; [reflexivity | by_compute]).
Defined.

(** C10.  Neither operation changes an object that was live before the
    call: whatever the dictionary, the weights and the outcome, every frame
    of the heap is row for row the same afterwards (the writes go to the
    copies the call allocates). *)
Theorem C10_inputs_unchanged (h : heap) (stock_data_dict : dict ref) (weights : dict Z)
    (r : ref) (df : list (Z * Bar)) :
  h !! r = Some df →
  (calculate_portfolio_performance stock_data_dict weights h).2 !! r = Some df
  ∧ (calculate_combined_volume stock_data_dict weights h).2 !! r = Some df.
Proof.
  intros Hr. split; (eapply lookup_weaken; [exact Hr|]); apply preserving_aggregate.
Qed.

Lemma C10_witness :
  (calculate_portfolio_performance (refs_of sample_seriesMap) sample_weights sample_heap).2
    !! 0%nat = Some sample_A
  ∧ (calculate_combined_volume (refs_of sample_seriesMap) sample_weights sample_heap).2
      !! 0%nat = Some sample_A.
Proof. apply C10_inputs_unchanged. reflexivity. Defined.

(* ===================================================================== *)
(** * Further properties of the code *)
(* ===================================================================== *)

(** ** The table builder *)

Lemma of_to_row (r : RawBar) : of_row (to_row r) = r.
Proof. by destruct r. Qed.

Lemma forallb_Permutation {A} (f : A → bool) (l1 l2 : list A) :
  l1 ≡ₚ l2 → forallb f l1 = forallb f l2.
Proof.
  intros Hperm. apply eq_true_iff_eq. rewrite <- !Is_true_true, !forallb_True.
  by rewrite Hperm.
Qed.

Lemma unique_row (df : list (Z * Bar)) d b1 b2 :
  NoDup (index df) → (d, b1) ∈ df → (d, b2) ∈ df → b1 = b2.
Proof.
  unfold index. induction df as [|[d' b'] df IH]; [by intros _ ?%elem_of_nil|].
  cbn. intros [Hnin Hnd]%NoDup_cons [H1|H1]%elem_of_cons [H2|H2]%elem_of_cons.
  - congruence.
  - injection H1 as -> ->. destruct Hnin. apply list_elem_of_fmap. by exists (d', b2).
  - injection H2 as -> ->. destruct Hnin. apply list_elem_of_fmap. by exists (d', b1).
  - by apply IH.
Qed.

(** Two frames sorted by label, with the same rows and no label twice, are
    the same frame. *)
Lemma sorted_frames_unique (df1 df2 : list (Z * Bar)) :
  NoDup (index df1) →
  StronglySorted label_le df1 → StronglySorted label_le df2 → df1 ≡ₚ df2 → df1 = df2.
Proof.
  intros Hnd Hs1 Hs2 Hperm. apply (StronglySorted_unique_strong label_le); [|done..].
  intros [d1 b1] [d2 b2] H1 H2 Hle Hge. unfold label_le in *. cbn in *.
  assert (d1 = d2) as -> by lia.
  rewrite <- Hperm in H2. by rewrite (unique_row df1 d2 b1 b2).
Qed.

Lemma StronglySorted_sort_index (df : list (Z * Bar)) : StronglySorted label_le (sort_index df).
Proof. unfold sort_index. apply StronglySorted_merge_sort; apply _. Qed.

Lemma StronglySorted_label_le (df : list (Z * Bar)) :
  StronglySorted Z.lt (index df) → StronglySorted label_le df.
Proof.
  unfold index. induction df as [|[d b] df IH]; [constructor|].
  cbn. intros [Hdf Hd]%StronglySorted_inv. constructor; [by apply IH|].
  rewrite Forall_fmap in Hd. eapply Forall_impl; [exact Hd|].
  intros [d' b'] Hlt. unfold label_le. cbn in *. lia.
Qed.

Lemma NoDup_StronglySorted_lt (l : list Z) : StronglySorted Z.lt l → NoDup l.
Proof.
  induction 1 as [|x l _ IH Hx]; constructor; [|done].
  intros Hin. rewrite Forall_forall in Hx. specialize (Hx x Hin). lia.
Qed.

(** With no timestamp twice, sorting depends on the bars only, not on
    their order. *)
Lemma sort_index_Permutation (df1 df2 : list (Z * Bar)) :
  NoDup (index df1) → df1 ≡ₚ df2 → sort_index df1 = sort_index df2.
Proof.
  intros Hnd Hperm. apply sorted_frames_unique.
  - by rewrite index_sort_index.
  - apply StronglySorted_sort_index.
  - apply StronglySorted_sort_index.
  - unfold sort_index. by rewrite !merge_sort_Permutation.
Qed.

(** X1.  The frame the table builder returns holds exactly the payload's
    bars: mapping every row back to its short keys gives the [results]
    array again, up to order (no bar is lost, repeated or altered, and each
    field lands in its column). *)
Theorem X1_rows_are_the_payload_bars (data : Payload) (df : list (Z * Bar)) :
  process_stock_data data = Returns df →
  ∃ rs : list RawBar, results data = Some rs ∧ of_row <$> df ≡ₚ rs.
Proof.
  unfold process_stock_data. destruct (results data) as [rs|]; [|done].
  intros Hdf. exists rs. split; [done|].
  assert (df = sort_index (to_row <$> rs)) as ->.
  { destruct rs as [|r rs]; [done|]. destruct (forallb _ _); [|done].
    by injection Hdf as <-. }
  unfold sort_index. rewrite merge_sort_Permutation, <- list_fmap_compose.
  rewrite (list_fmap_ext _ id); [by rewrite list_fmap_id|].
  intros _ x _. apply of_to_row.
Qed.

Lemma X1_witness :
  ∃ rs : list RawBar, results shuffled_payload = Some rs ∧ of_row <$> shuffled_frame ≡ₚ rs.
Proof. apply (X1_rows_are_the_payload_bars shuffled_payload). by vm_compute. Defined.

(** X2.  The order of the bars in the payload does not matter: two
    [results] arrays with the same bars in different orders, no timestamp
    twice, give the same outcome of the table builder (the same frame, or
    the same exception). *)
Theorem X2_order_of_bars_is_irrelevant (rs1 rs2 : list RawBar) :
  rs1 ≡ₚ rs2 →
  NoDup (raw_t <$> rs1) →
  process_stock_data (mkPayload (Some rs1)) = process_stock_data (mkPayload (Some rs2)).
Proof.
  intros Hperm Hnd. unfold process_stock_data. cbn [results].
  destruct rs1 as [|r1 rs1], rs2 as [|r2 rs2]; [done| | |].
  { by apply Permutation_nil_cons in Hperm. }
  { symmetry in Hperm. by apply Permutation_nil_cons in Hperm. }
  rewrite (forallb_Permutation _ (raw_t <$> r1 :: rs1) (raw_t <$> r2 :: rs2))
    by (by rewrite Hperm).
  destruct (forallb _ _); [|done]. f_equal.
  apply sort_index_Permutation; [|by rewrite Hperm].
  by rewrite index_to_row.
Qed.

Lemma X2_witness :
  process_stock_data shuffled_payload
  = process_stock_data
      (mkPayload (Some (reverse (default [] (results shuffled_payload))))).
Proof.
  apply (X2_order_of_bars_is_irrelevant _ (reverse (default [] (results shuffled_payload)))).
  - by rewrite reverse_Permutation.
  - by_compute.
Defined.

(** X3.  A payload that is already in strictly ascending timestamp order
    (what the request asks the server for) comes out row for row in the
    order it came in. *)
Theorem X3_ascending_payload_is_kept (rs : list RawBar) :
  rs ≠ [] →
  StronglySorted Z.lt (raw_t <$> rs) →
  forallb in_datetime_range (raw_t <$> rs) = true →
  process_stock_data (mkPayload (Some rs)) = Returns (to_row <$> rs).
Proof.
  intros Hne Hsorted Hrange. unfold process_stock_data. cbn [results].
  destruct rs as [|r rs]; [done|]. rewrite Hrange. f_equal.
  rewrite <- index_to_row in Hsorted.
  apply sorted_frames_unique.
  - rewrite index_sort_index. by apply NoDup_StronglySorted_lt.
  - apply StronglySorted_sort_index.
  - by apply StronglySorted_label_le.
  - unfold sort_index. by rewrite merge_sort_Permutation.
Qed.

Lemma X3_witness :
  process_stock_data (mkPayload (Some ascending_bars)) = Returns (to_row <$> ascending_bars).
Proof.
  apply X3_ascending_payload_is_kept.
  - done.
  - by_compute.
  - by vm_compute.
Defined.

(** ** The aggregator: when it returns and what it raises *)

Lemma for_each_app {A S} (xs ys : list A) (body : A → S → M S) : ∀ (s : S) (h : heap),
  for_each (xs ++ ys) body s h = (for_each xs body s ≫= for_each ys body) h.
Proof.
  induction xs as [|x xs IH]; intros s h; [reflexivity|].
  cbn [app for_each]. unfold mbind, M_bind.
  destruct (body x s h) as [[a| |] h1]; [|reflexivity..].
  rewrite IH. reflexivity.
Qed.

Lemma dict_get_None {V} k (d : dict V) : k ∉ keys d → dict_get k d = None.
Proof.
  intros Hk. destruct (dict_get k d) as [v|] eqn:Hget; [|done].
  by apply dict_get_Some_keys in Hget.
Qed.

Lemma weighted_value_stray c (h : heap) (nd : dict ref) sm date (w1 w2 : dict Z) sym wt :
  Forall (readable c h nd sm date) (keys w1) →
  dict_get sym nd = None →
  weighted_value c nd (w1 ++ (sym, wt) :: w2) date h = (Raises (KeyError sym), h).
Proof.
  intros Hw1 Hnone. unfold weighted_value. rewrite for_each_app.
  erewrite bind_returns; [|by apply (weighted_value_loop c h nd sm)].
  cbn [for_each]. by rewrite Hnone.
Qed.

(** The weight of a symbol that has no series makes the call raise a
    [KeyError] on that symbol, once there is a date to compute. *)
Lemma aggregate_raises_on_stray_weight c (h : heap) (sdd : dict ref) (w1 w2 : dict Z) sym wt :
  NoDup (keys sdd) →
  all_nonempty h sdd →
  unique_labels h sdd →
  common_dates (values (frames h sdd)) ≠ ∅ →
  keys w1 ⊆ keys sdd →
  sym ∉ keys sdd →
  ∃ h' : heap, aggregate c sdd (w1 ++ (sym, wt) :: w2) h = (Raises (KeyError sym), h').
Proof.
  intros Hnd Hne Huniq Hcommon Hw1 Hsym.
  destruct (normalize_all_returns c sdd h Hne Hnd) as (rs & h' & Hrun & Hsub & Hall).
  exists h'.
  assert (Hsdd : sdd ≠ []) by (intros ->; by apply Hcommon).
  assert (Hlen : length (keys sdd) = length rs).
  { unfold keys. rewrite length_fmap. by eapply Forall2_length. }
  unfold aggregate. erewrite bind_returns; [|exact Hrun].
  unfold intersect_all. rewrite values_zip by done.
  erewrite bind_returns; [|apply intersect_loop].
  rewrite (Forall2_frames_rebased c h h' sdd rs Hall), foldl_intersect_rebased.
  rewrite foldl_intersect_None.
  2:{ rewrite values_frames. unfold values. destruct sdd; done. }
  erewrite bind_returns; [|done].
  fold (sorted_common_dates (values (frames h sdd))).
  destruct (sorted_common_dates (values (frames h sdd))) as [|d ds] eqn:Hs.
  { by apply sorted_common_dates_nil in Hs. }
  erewrite bind_raises; [done|].
  unfold weighted_rows. cbn [for_each]. erewrite bind_raises; [done|].
  erewrite bind_raises; [done|].
  apply (weighted_value_stray c h' _ (frames h sdd)).
  - apply Forall_forall. intros k Hk.
    apply (readable_after_normalize c h h'); [done | done | | by apply Hw1].
    apply elem_of_sorted_common_dates. rewrite Hs. by left.
  - apply dict_get_None. unfold keys at 1. by rewrite fst_zip by lia.
Qed.

Lemma aggregate_empty_dict c (w : dict Z) (h : heap) :
  aggregate c [] w h = (Raises (TypeError "'NoneType' object is not iterable"), h).
Proof. done. Qed.

(** The weight map is covered, or has a first symbol without a series. *)
Lemma first_stray_weight (ks : list string) (w : dict Z) :
  keys w ⊆ ks
  ∨ ∃ w1 sym wt w2, w = w1 ++ (sym, wt) :: w2 ∧ keys w1 ⊆ ks ∧ sym ∉ ks.
Proof.
  induction w as [|[sym wt] w IH].
  - left. by intros k ?%elem_of_nil.
  - destruct (decide (sym ∈ ks)) as [Hin|Hnin].
    + destruct IH as [Hcov|(w1 & sym' & wt' & w2 & -> & Hw1 & Hsym')].
      * left. intros k [->|Hk]%elem_of_cons; [done | by apply Hcov].
      * right. exists ((sym, wt) :: w1), sym', wt', w2. split; [done|]. split; [|done].
        intros k [->|Hk]%elem_of_cons; [done | by apply Hw1].
    + right. exists [], sym, wt, w. split; [done|]. split; [|done].
      by intros k ?%elem_of_nil.
Qed.

Lemma empty_or_all_nonempty (h : heap) (sdd : dict ref) :
  all_nonempty h sdd ∨ Exists (λ kr, frame h kr.2 = []) sdd.
Proof.
  assert (dec : ∀ kr : string * nat,
            sumbool (frame h kr.2 ≠ nil) (frame h kr.2 = nil)).
  { intros kr. destruct (frame h kr.2); [by right | by left]. }
  destruct (Forall_Exists_dec (λ kr : string * nat, frame h kr.2 ≠ [])
              (λ kr, frame h kr.2 = []) dec sdd); [by left | by right].
Qed.

Lemma well_posed_common (h : heap) (sdd : dict ref) (w : dict Z) :
  well_posed h sdd w → common_dates (values (frames h sdd)) ≠ ∅.
Proof.
  intros (Hsdd & _ & _ & d & Hd) Hempty.
  assert (Hvals : values (frames h sdd) ≠ []).
  { rewrite values_frames. unfold values. by destruct sdd. }
  apply (elem_of_common_dates d _ Hvals) in Hd.
  rewrite Hempty in Hd. by apply not_elem_of_empty in Hd.
Qed.

Lemma aggregate_returns_iff c (h : heap) (sdd : dict ref) (w : dict Z) :
  NoDup (keys sdd) → live h sdd → unique_labels h sdd →
  (∃ out h', aggregate c sdd w h = (Returns out, h')) ↔ well_posed h sdd w.
Proof.
  intros Hnd Hlive Huniq. split.
  - intros (out & h' & Hrun).
    destruct (empty_or_all_nonempty h sdd) as [Hne|Hex].
    2:{ apply Exists_exists in Hex as ([k r] & Hin & Hempty). cbn in Hempty.
        unfold live in Hlive. rewrite Forall_forall in Hlive.
        destruct (Hlive _ Hin) as [df Hdf]. cbn in Hdf.
        rewrite (frame_lookup _ _ _ Hdf) in Hempty. subst df.
        destruct (aggregate_raises_on_empty_series c h sdd w k r Hin Hdf) as [h'' Hr].
        congruence. }
    assert (Hsdd : sdd ≠ []).
    { intros ->. rewrite aggregate_empty_dict in Hrun. congruence. }
    destruct (decide (common_dates (values (frames h sdd)) = ∅)) as [Hempty|Hcommon].
    { destruct (aggregate_raises_without_common_date c h sdd w) as [h'' Hr]; [done..|].
      congruence. }
    destruct (first_stray_weight (keys sdd) w)
      as [Hcov|(w1 & sym & wt & w2 & -> & Hw1 & Hsym)].
    2:{ destruct (aggregate_raises_on_stray_weight c h sdd w1 w2 sym wt) as [h'' Hr];
          [done..|]. congruence. }
    split; [done|]. split; [done|]. split; [done|].
    apply set_choose_L in Hcommon as [d Hd]. exists d.
    apply elem_of_common_dates in Hd; [done|].
    rewrite values_frames. unfold values. by destruct sdd.
  - intros Hwp. pose proof (well_posed_common _ _ _ Hwp) as Hcommon.
    destruct Hwp as (Hsdd & Hne & Hcov & _).
    destruct (aggregate_returns c h sdd w) as (h' & Hrun & _); [done..|].
    by eexists _, h'.
Qed.

(** X4.  On a dictionary of live, uniquely dated frames, each operation
    returns exactly when the input is well posed: the dictionary is not
    empty, no series is empty, every symbol of the weight map has a series,
    and some date is common to all series.  In every other case it raises. *)
Theorem X4_returns_exactly_when_well_posed (h : heap) (stock_data_dict : dict ref)
    (weights : dict Z) :
  NoDup (keys stock_data_dict) →
  live h stock_data_dict →
  unique_labels h stock_data_dict →
  ((∃ out h', calculate_portfolio_performance stock_data_dict weights h = (Returns out, h'))
   ↔ well_posed h stock_data_dict weights)
  ∧ ((∃ out h', calculate_combined_volume stock_data_dict weights h = (Returns out, h'))
     ↔ well_posed h stock_data_dict weights).
Proof. intros. split; by apply aggregate_returns_iff. Qed.

Lemma sample_live : live sample_heap (refs_of sample_seriesMap).
Proof. repeat constructor; by eexists. Qed.

Lemma X4_witness :
  ((∃ out h', calculate_portfolio_performance (refs_of sample_seriesMap) sample_weights
                sample_heap = (Returns out, h'))
   ↔ well_posed sample_heap (refs_of sample_seriesMap) sample_weights)
  ∧ ((∃ out h', calculate_combined_volume (refs_of sample_seriesMap) sample_weights
                  sample_heap = (Returns out, h'))
     ↔ well_posed sample_heap (refs_of sample_seriesMap) sample_weights).
Proof.
  destruct sample_hyps as (H1 & H2 & H3 & H4).
  apply X4_returns_exactly_when_well_posed; [done | apply sample_live | done].
Defined.

(** X5.  A weight for a symbol that has no series makes either operation
    raise a [KeyError] on that symbol (the first such symbol of the weight
    map), whenever the series are non-empty, uniquely dated and share a
    date. *)
Theorem X5_stray_weight_raises_KeyError (h : heap) (stock_data_dict : dict ref)
    (w1 w2 : dict Z) (symbol : string) (weight : Z) :
  NoDup (keys stock_data_dict) →
  all_nonempty h stock_data_dict →
  unique_labels h stock_data_dict →
  common_dates (values (frames h stock_data_dict)) ≠ ∅ →
  keys w1 ⊆ keys stock_data_dict →
  symbol ∉ keys stock_data_dict →
  (∃ h' : heap,
     calculate_portfolio_performance stock_data_dict (w1 ++ (symbol, weight) :: w2) h
     = (Raises (KeyError symbol), h'))
  ∧ (∃ h' : heap,
       calculate_combined_volume stock_data_dict (w1 ++ (symbol, weight) :: w2) h
       = (Raises (KeyError symbol), h')).
Proof. intros. split; by apply aggregate_raises_on_stray_weight. Qed.

Lemma X5_witness :
  (∃ h' : heap,
     calculate_portfolio_performance (refs_of sample_seriesMap)
       ([("A"%string, 50)] ++ ("Z"%string, 50) :: []) sample_heap
     = (Raises (KeyError "Z"), h'))
  ∧ (∃ h' : heap,
       calculate_combined_volume (refs_of sample_seriesMap)
         ([("A"%string, 50)] ++ ("Z"%string, 50) :: []) sample_heap
       = (Raises (KeyError "Z"), h')).
Proof.
  destruct sample_hyps as (H1 & H2 & H3 & H4).
  apply X5_stray_weight_raises_KeyError; [done..| | |]; by_compute.
Defined.

(** X6.  Whenever the series of a non-empty dictionary are non-empty and
    no date is common to all of them, both operations raise the [KeyError]
    of [set_index('date')], whatever the weight map. *)
Theorem X6_no_common_date_raises (h : heap) (stock_data_dict : dict ref) (weights : dict Z) :
  NoDup (keys stock_data_dict) →
  stock_data_dict ≠ [] →
  all_nonempty h stock_data_dict →
  common_dates (values (frames h stock_data_dict)) = ∅ →
  (∃ h' : heap,
     calculate_portfolio_performance stock_data_dict weights h
     = (Raises (KeyError "None of ['date'] are in the columns"), h'))
  ∧ (∃ h' : heap,
       calculate_combined_volume stock_data_dict weights h
       = (Raises (KeyError "None of ['date'] are in the columns"), h')).
Proof. intros. split; by apply aggregate_raises_without_common_date. Qed.

Lemma X6_witness :
  (∃ h' : heap,
     calculate_portfolio_performance (refs_of (disjoint_seriesMap Close)) stray_weights
       (heap_of (values (disjoint_seriesMap Close)))
     = (Raises (KeyError "None of ['date'] are in the columns"), h'))
  ∧ (∃ h' : heap,
       calculate_combined_volume (refs_of (disjoint_seriesMap Close)) stray_weights
         (heap_of (values (disjoint_seriesMap Close)))
       = (Raises (KeyError "None of ['date'] are in the columns"), h')).
Proof.
  apply X6_no_common_date_raises.
  - by_compute.
  - done.
  - by repeat constructor.
  - by vm_compute.
Defined.

(** X7.  The price index and the volume index are defined together and on
    the same dates: on a dictionary of live, uniquely dated frames one
    operation returns exactly when the other does, and the two composites
    then have the same list of dates. *)
Theorem X7_price_and_volume_share_their_dates (h : heap) (stock_data_dict : dict ref)
    (weights : dict Z) :
  NoDup (keys stock_data_dict) →
  live h stock_data_dict →
  unique_labels h stock_data_dict →
  ((∃ out h', calculate_portfolio_performance stock_data_dict weights h = (Returns out, h'))
   ↔ (∃ out h', calculate_combined_volume stock_data_dict weights h = (Returns out, h')))
  ∧ ∀ (price volume : list (Z * F64.t)) (h1 h2 : heap),
      calculate_portfolio_performance stock_data_dict weights h = (Returns price, h1) →
      calculate_combined_volume stock_data_dict weights h = (Returns volume, h2) →
      price.*1 = volume.*1.
Proof.
  intros Hnd Hlive Huniq. split.
  - unfold calculate_portfolio_performance, calculate_combined_volume.
    by rewrite !aggregate_returns_iff.
  - intros price volume h1 h2 Hp Hv.
    assert (Hwp : well_posed h stock_data_dict weights).
    { apply (aggregate_returns_iff Close); [done..|]. by exists price, h1. }
    pose proof (well_posed_common _ _ _ Hwp) as Hcommon.
    destruct Hwp as (Hsdd & Hne & Hcov & _).
    destruct (aggregate_returns Close h stock_data_dict weights) as (h1' & Hp' & _); [done..|].
    destruct (aggregate_returns Volume h stock_data_dict weights) as (h2' & Hv' & _); [done..|].
    unfold calculate_portfolio_performance, calculate_combined_volume in *.
    rewrite Hp' in Hp. rewrite Hv' in Hv.
    injection Hp as <- _. injection Hv as <- _. by rewrite !fst_dated.
Qed.

Lemma X7_witness :
  ((∃ out h', calculate_portfolio_performance (refs_of sample_seriesMap) sample_weights
                sample_heap = (Returns out, h'))
   ↔ (∃ out h', calculate_combined_volume (refs_of sample_seriesMap) sample_weights
                  sample_heap = (Returns out, h')))
  ∧ ∀ (price volume : list (Z * F64.t)) (h1 h2 : heap),
      calculate_portfolio_performance (refs_of sample_seriesMap) sample_weights sample_heap
      = (Returns price, h1) →
      calculate_combined_volume (refs_of sample_seriesMap) sample_weights sample_heap
      = (Returns volume, h2) →
      price.*1 = volume.*1.
Proof.
  destruct sample_hyps as (H1 & H2 & H3 & H4).
  apply X7_price_and_volume_share_their_dates; [done | apply sample_live | done].
Defined.

(** ** The order of the symbol dictionary *)

Lemma dict_get_Some_iff {V} k (v : V) (d : dict V) :
  NoDup (keys d) → dict_get k d = Some v ↔ (k, v) ∈ d.
Proof.
  intros Hnd. split; [apply dict_get_elem_of|].
  unfold keys in Hnd. induction d as [|[k' v'] d IH]; [by intros ?%elem_of_nil|].
  cbn in *. apply NoDup_cons in Hnd as [Hnin Hnd].
  intros [[= -> ->]|Hin]%elem_of_cons.
  - by rewrite decide_True.
  - destruct (decide (k' = k)) as [->|Hne]; [|by apply IH].
    destruct Hnin. apply list_elem_of_fmap. by exists (k, v).
Qed.

Lemma dict_get_Permutation {V} k (d1 d2 : dict V) :
  NoDup (keys d1) → d1 ≡ₚ d2 → dict_get k d1 = dict_get k d2.
Proof.
  intros Hnd Hperm.
  assert (Hnd' : NoDup (keys d2)) by (unfold keys in *; by rewrite <- Hperm).
  apply option_eq. intros v. rewrite !dict_get_Some_iff by done. by rewrite Hperm.
Qed.

Lemma common_dates_Permutation (dfs1 dfs2 : list (list (Z * Bar))) :
  dfs1 ≡ₚ dfs2 → common_dates dfs1 = common_dates dfs2.
Proof.
  intros Hperm. destruct dfs1 as [|df1 dfs1].
  { apply Permutation_nil in Hperm. by subst. }
  destruct dfs2 as [|df2 dfs2].
  { by apply Permutation_nil_r in Hperm. }
  apply set_eq. intros d. rewrite !elem_of_common_dates by done. by rewrite Hperm.
Qed.

Lemma aggregate_Permutation c (h : heap) (sdd1 sdd2 : dict ref) (w : dict Z) :
  sdd1 ≡ₚ sdd2 →
  NoDup (keys sdd1) →
  all_nonempty h sdd1 →
  unique_labels h sdd1 →
  weights_covered w sdd1 →
  common_dates (values (frames h sdd1)) ≠ ∅ →
  ∃ out h1 h2, aggregate c sdd1 w h = (Returns out, h1)
             ∧ aggregate c sdd2 w h = (Returns out, h2).
Proof.
  intros Hperm Hnd Hne Huniq Hcov Hcommon.
  assert (Hfr : frames h sdd1 ≡ₚ frames h sdd2) by (unfold frames; by rewrite Hperm).
  assert (Hvals : values (frames h sdd1) ≡ₚ values (frames h sdd2)).
  { unfold values. by rewrite Hfr. }
  assert (Hcd : common_dates (values (frames h sdd1)) = common_dates (values (frames h sdd2))).
  { by apply common_dates_Permutation. }
  destruct (aggregate_returns c h sdd1 w) as (h1 & Hrun1 & _); [done..|].
  destruct (aggregate_returns c h sdd2 w) as (h2 & Hrun2 & _).
  { unfold keys in *. by rewrite <- Hperm. }
  { unfold all_nonempty in *. by rewrite <- Hperm. }
  { unfold unique_labels in *. by rewrite <- Hperm. }
  { unfold weights_covered, keys in *. by rewrite <- Hperm. }
  { by rewrite <- Hcd. }
  eexists _, h1, h2. split; [exact Hrun1|]. rewrite Hrun2. do 2 f_equal.
  unfold sorted_common_dates. rewrite <- Hcd.
  apply Forall_fmap_ext_1, Forall_forall. intros d _. f_equal.
  unfold weighted_sum. apply foldl_ext_in. intros a [sym wt] _. cbn. do 2 f_equal.
  unfold rebased_value. rewrite (dict_get_Permutation sym (frames h sdd2) (frames h sdd1)).
  - done.
  - rewrite keys_frames. unfold keys in *. by rewrite <- Hperm.
  - done.
Qed.

(** X8.  The order of the symbols in the data dictionary does not matter:
    listing the same series in another order (the weight map unchanged)
    gives the same composite, date for date and bit for bit, from both
    operations. *)
Theorem X8_dictionary_order_is_irrelevant (h : heap) (sdd1 sdd2 : dict ref) (weights : dict Z) :
  sdd1 ≡ₚ sdd2 →
  NoDup (keys sdd1) →
  all_nonempty h sdd1 →
  unique_labels h sdd1 →
  weights_covered weights sdd1 →
  common_dates (values (frames h sdd1)) ≠ ∅ →
  (∃ out h1 h2, calculate_portfolio_performance sdd1 weights h = (Returns out, h1)
              ∧ calculate_portfolio_performance sdd2 weights h = (Returns out, h2))
  ∧ (∃ out h1 h2, calculate_combined_volume sdd1 weights h = (Returns out, h1)
                ∧ calculate_combined_volume sdd2 weights h = (Returns out, h2)).
Proof. intros. split; by apply aggregate_Permutation. Qed.

Lemma X8_witness :
  (∃ out h1 h2,
     calculate_portfolio_performance (refs_of sample_seriesMap) sample_weights sample_heap
     = (Returns out, h1)
     ∧ calculate_portfolio_performance (reverse (refs_of sample_seriesMap)) sample_weights
         sample_heap = (Returns out, h2))
  ∧ (∃ out h1 h2,
       calculate_combined_volume (refs_of sample_seriesMap) sample_weights sample_heap
       = (Returns out, h1)
       ∧ calculate_combined_volume (reverse (refs_of sample_seriesMap)) sample_weights
           sample_heap = (Returns out, h2)).
Proof.
  destruct sample_hyps as (H1 & H2 & H3 & H4).
  apply X8_dictionary_order_is_irrelevant; [|done..|by vm_compute].
  by rewrite reverse_Permutation.
Defined.

(** ** The columns an operation reads *)

Lemma rows_at_zip c date (df : list (Z * Bar)) :
  get_col c <$> rows_at date df
  = (filter (λ p, p.1 = date) (zip (index df) (column_values c df))).*2.
Proof.
  unfold rows_at, index, column_values. induction df as [|[d b] df IH]; [done|].
  cbn [fmap list_fmap zip zip_with fst snd]. rewrite !filter_cons. cbn [fst snd].
  destruct (decide (d = date)); cbn; by rewrite <- IH.
Qed.

Lemma head_fmap {A B} (f : A → B) (l : list A) : head (f <$> l) = f <$> head l.
Proof. by destruct l. Qed.

Lemma value_at_agree c (df1 df2 : list (Z * Bar)) date :
  agree_on c df1 df2 → value_at c df1 date = value_at c df2 date.
Proof.
  intros [Hi Hc]. unfold value_at.
  by rewrite <- !head_fmap, !rows_at_zip, Hi, Hc.
Qed.

Lemma first_value_agree c (df1 df2 : list (Z * Bar)) :
  agree_on c df1 df2 → first_value c df1 = first_value c df2.
Proof. intros [_ Hc]. unfold first_value. by rewrite Hc. Qed.

Lemma aggregate_agree c (h1 h2 : heap) (sdd : dict ref) (w : dict Z) :
  NoDup (keys sdd) →
  all_nonempty h1 sdd →
  unique_labels h1 sdd →
  weights_covered w sdd →
  common_dates (values (frames h1 sdd)) ≠ ∅ →
  Forall (λ kr, agree_on c (frame h1 kr.2) (frame h2 kr.2)) sdd →
  ∃ out h1' h2', aggregate c sdd w h1 = (Returns out, h1')
               ∧ aggregate c sdd w h2 = (Returns out, h2').
Proof.
  intros Hnd Hne Huniq Hcov Hcommon Hagree.
  assert (Hidx : index <$> values (frames h1 sdd) = index <$> values (frames h2 sdd)).
  { rewrite !values_frames. unfold values. rewrite <- !list_fmap_compose.
    apply Forall_fmap_ext_1. eapply Forall_impl; [exact Hagree|].
    by intros [k r] [Hi _]. }
  assert (Hcd : common_dates (values (frames h1 sdd)) = common_dates (values (frames h2 sdd))).
  { assert (Hsdd : sdd ≠ []) by (intros ->; by apply Hcommon).
    assert (Hv1 : values (frames h1 sdd) ≠ []).
    { rewrite values_frames. unfold values. by destruct sdd. }
    assert (Hv2 : values (frames h2 sdd) ≠ []).
    { rewrite values_frames. unfold values. by destruct sdd. }
    apply set_eq. intros d. rewrite !elem_of_common_dates by done.
    trans (Forall (λ l, d ∈ l) (index <$> values (frames h1 sdd)));
      [by rewrite Forall_fmap|].
    rewrite Hidx. by rewrite Forall_fmap. }
  destruct (aggregate_returns c h1 sdd w) as (h1' & Hrun1 & _); [done..|].
  destruct (aggregate_returns c h2 sdd w) as (h2' & Hrun2 & _); [done| | |done| |].
  { unfold all_nonempty in *. rewrite Forall_forall in Hne, Hagree. apply Forall_forall.
    intros kr Hkr Hempty. destruct (Hagree kr Hkr) as [Hi _]. apply (Hne kr Hkr).
    rewrite Hempty in Hi. unfold index in Hi. by apply fmap_nil_inv in Hi. }
  { unfold unique_labels in *. rewrite Forall_forall in Huniq, Hagree. apply Forall_forall.
    intros kr Hkr. destruct (Hagree kr Hkr) as [<- _]. by apply Huniq. }
  { by rewrite <- Hcd. }
  eexists _, h1', h2'. split; [exact Hrun1|]. rewrite Hrun2. do 2 f_equal.
  unfold sorted_common_dates. rewrite <- Hcd.
  apply Forall_fmap_ext_1, Forall_forall. intros d _. f_equal.
  unfold weighted_sum. apply foldl_ext_in. intros a [sym wt] _. cbn. do 2 f_equal.
  unfold rebased_value, frames. rewrite !dict_get_fmap.
  destruct (dict_get sym sdd) as [r|] eqn:Hget; [|done]. cbn.
  apply dict_get_elem_of in Hget. rewrite Forall_forall in Hagree.
  specialize (Hagree _ Hget). cbn in Hagree.
  by rewrite (value_at_agree c _ _ d Hagree), (first_value_agree c _ _ Hagree).
Qed.

(** X9.  The price index reads the close column only and the volume index
    the volume column only: with the same dates and the same values in that
    column, two sets of series give the same composite, whatever their other
    columns hold. *)
Theorem X9_only_the_chosen_column_is_read (h1 h2 : heap) (stock_data_dict : dict ref)
    (weights : dict Z) :
  NoDup (keys stock_data_dict) →
  all_nonempty h1 stock_data_dict →
  unique_labels h1 stock_data_dict →
  weights_covered weights stock_data_dict →
  common_dates (values (frames h1 stock_data_dict)) ≠ ∅ →
  (Forall (λ kr, agree_on Close (frame h1 kr.2) (frame h2 kr.2)) stock_data_dict →
   ∃ out h1' h2',
     calculate_portfolio_performance stock_data_dict weights h1 = (Returns out, h1')
     ∧ calculate_portfolio_performance stock_data_dict weights h2 = (Returns out, h2'))
  ∧ (Forall (λ kr, agree_on Volume (frame h1 kr.2) (frame h2 kr.2)) stock_data_dict →
     ∃ out h1' h2',
       calculate_combined_volume stock_data_dict weights h1 = (Returns out, h1')
       ∧ calculate_combined_volume stock_data_dict weights h2 = (Returns out, h2')).
Proof. intros. split; intros; by apply aggregate_agree. Qed.

Lemma X9_witness :
  ∃ out h1' h2',
    calculate_portfolio_performance (refs_of sample_seriesMap) sample_weights sample_heap
    = (Returns out, h1')
    ∧ calculate_portfolio_performance (refs_of sample_seriesMap) sample_weights
        sample_heap_with_volume = (Returns out, h2').
Proof.
  destruct sample_hyps as (H1 & H2 & H3 & H4).
  apply (X9_only_the_chosen_column_is_read sample_heap sample_heap_with_volume);
    [done..|by vm_compute|].
  repeat constructor.
Defined.

(** ** The fetch loop of [main] *)

Lemma bind_returns_inv {A B} (m : M A) (f : A → M B) (h h' : heap) b :
  (m ≫= f) h = (Returns b, h') →
  ∃ a h1, m h = (Returns a, h1) ∧ f a h1 = (Returns b, h').
Proof.
  unfold mbind, M_bind. destruct (m h) as [[a| |] h1]; [|done..].
  intros Hf. by exists a, h1.
Qed.

(** A property of the loop-carried variables and the heap that every
    returning iteration keeps holds when the loop returns. *)
Lemma for_each_invariant {A S} (I : gmap nat (list (Z * Bar)) → S → Prop)
    (xs : list A) (body : A → S → M S) :
  (∀ x s h s' h', x ∈ xs → I h s → body x s h = (Returns s', h') → I h' s') →
  ∀ s h s' h', I h s → for_each xs body s h = (Returns s', h') → I h' s'.
Proof.
  induction xs as [|x xs IH]; intros Hbody s h s' h' HI Hrun.
  - cbn in Hrun. injection Hrun as <- <-. done.
  - cbn [for_each] in Hrun. apply bind_returns_inv in Hrun as (s1 & h1 & Hx & Hrest).
    eapply IH; [|eapply Hbody; [by left | exact HI | exact Hx]|exact Hrest].
    intros x' s0 h0 s0' h0' Hin. apply Hbody. by right.
Qed.

Lemma process_stock_data_returns (data : Payload) (df : list (Z * Bar)) :
  process_stock_data data = Returns df →
  df ≠ [] ∧ StronglySorted Z.le (index df).
Proof.
  unfold process_stock_data. destruct (results data) as [rs|]; [|done].
  destruct rs as [|r rs]; [done|]. destruct (forallb _ _); [|done].
  intros [= Hdf]. split.
  - intros ->. symmetry in Hdf. apply (f_equal length) in Hdf.
    unfold sort_index in Hdf. rewrite merge_sort_Permutation in Hdf. done.
  - rewrite <- Hdf. apply StronglySorted_index, StronglySorted_sort_index.
Qed.

Lemma keys_dict_set_new {V} k (v : V) (d : dict V) :
  k ∉ keys d → keys (dict_set k v d) = keys d ++ [k].
Proof. intros Hk. rewrite dict_set_fresh by done. unfold keys. by rewrite fmap_app. Qed.

Lemma keys_dict_set_both {V W} k (v : V) (w : W) (d : dict V) (e : dict W) :
  keys d = keys e → keys (dict_set k v d) = keys (dict_set k w e).
Proof.
  intros Heq. destruct (decide (k ∈ keys d)) as [Hin|Hnin].
  - rewrite !keys_dict_set; [done | by rewrite <- Heq | done].
  - rewrite !keys_dict_set_new; [by rewrite Heq | by rewrite <- Heq | done].
Qed.

Lemma NoDup_keys_dict_set {V} k (v : V) (d : dict V) :
  NoDup (keys d) → NoDup (keys (dict_set k v d)).
Proof.
  intros Hnd. destruct (decide (k ∈ keys d)) as [Hin|Hnin].
  - by rewrite keys_dict_set.
  - rewrite keys_dict_set_new by done. apply NoDup_app. split; [done|].
    split; [|apply NoDup_singleton]. intros k' Hk' ->%list_elem_of_singleton. done.
Qed.

Lemma Forall_dict_set {V} (P : string * V → Prop) k (v : V) (d : dict V) :
  P (k, v) → Forall P d → Forall P (dict_set k v d).
Proof.
  intros Hv. induction d as [|[k' v'] d IH]; cbn.
  - by repeat constructor.
  - intros [Hv' Hd]%Forall_cons. destruct (decide (k' = k)); constructor; auto.
Qed.

Lemma loaded_weaken (h h' : heap) sdd w : h ⊆ h' → loaded h sdd w → loaded h' sdd w.
Proof.
  intros Hsub (Hk & Hnd & Hall). split; [done|]. split; [done|].
  eapply Forall_impl; [exact Hall|]. intros [k r] (df & Hr & Hdf). exists df.
  split; [|done]. by eapply lookup_weaken.
Qed.

Lemma fetch_all_loaded get_json api_key start_date end_date (stocks : list Stock)
    (h h' : heap) sdd w errors :
  fetch_all get_json api_key start_date end_date stocks h = (Returns (sdd, w, errors), h') →
  loaded h' sdd w ∧ h ⊆ h'.
Proof.
  unfold fetch_all. intros Hrun.
  apply (for_each_invariant
           (λ h1 '(sdd1, w1, _), loaded h1 sdd1 w1 ∧ h ⊆ h1) _ _) in Hrun; [done| |].
  - clear. intros stock [[sdd w] errors] h1 [[sdd' w'] errors'] h2 _ [Hl Hsub].
    cbn zeta. destruct (decide (stock_symbol stock = "")).
    { intros [= <- <- <- <-]. done. }
    destruct (fetch_stock_data _ _ _ _ _) as [msg|data].
    { intros [= <- <- <- <-]. done. }
    intros Hbody. apply bind_returns_inv in Hbody as (df & h3 & Hproc & Hbody).
    unfold lift in Hproc. injection Hproc as Hproc <-.
    apply bind_returns_inv in Hbody as (r & h3 & Halloc & Hbody).
    unfold alloc in Halloc. injection Halloc as <- <-.
    injection Hbody as <- <- <- <-.
    assert (Hfresh : h1 !! fresh (dom h1) = None) by apply not_elem_of_dom, is_fresh.
    assert (Hsub' : h1 ⊆ <[fresh (dom h1) := df]> h1) by (by apply insert_subseteq).
    apply process_stock_data_returns in Hproc as [Hne Hsorted].
    split; [|by trans h1].
    apply (loaded_weaken _ _ _ _ Hsub') in Hl. destruct Hl as (Hk & Hnd & Hall).
    split; [by apply keys_dict_set_both|]. split; [by apply NoDup_keys_dict_set|].
    apply Forall_dict_set; [|done]. exists df. cbn. by rewrite lookup_insert_eq.
  - split; [|done]. split; [done|]. split; [apply NoDup_nil_2 | constructor].
Qed.

Lemma loaded_live (h : heap) sdd w : loaded h sdd w → live h sdd.
Proof.
  intros (_ & _ & Hall). eapply Forall_impl; [exact Hall|].
  intros [k r] (df & Hr & _). by exists df.
Qed.

Lemma loaded_all_nonempty (h : heap) sdd w : loaded h sdd w → all_nonempty h sdd.
Proof.
  intros (_ & _ & Hall). eapply Forall_impl; [exact Hall|].
  intros [k r] (df & Hr & Hne & _). cbn in *. by rewrite (frame_lookup _ _ _ Hr).
Qed.

(** X10.  When the fetch loop of [main] returns, its two dictionaries are
    fit for the aggregator: they have the same symbols in the same order,
    no symbol twice, and every symbol's frame is a live object with at least
    one bar and dates in ascending order; no object that existed before is
    changed. *)
Theorem X10_fetch_loop_builds_matching_dictionaries
    (get_json : string → Response) (api_key start_date end_date : string)
    (stocks : list Stock) (h h' : heap)
    (stock_data_dict : dict ref) (weights : dict Z) (errors : list string) :
  fetch_all get_json api_key start_date end_date stocks h
  = (Returns (stock_data_dict, weights, errors), h') →
  keys weights = keys stock_data_dict
  ∧ NoDup (keys stock_data_dict)
  ∧ live h' stock_data_dict
  ∧ all_nonempty h' stock_data_dict
  ∧ Forall (λ kr, StronglySorted Z.le (index (frame h' kr.2))) stock_data_dict
  ∧ h ⊆ h'.
Proof.
  intros Hrun. apply fetch_all_loaded in Hrun as [Hl Hsub].
  split; [apply Hl|]. split; [apply Hl|].
  split; [by eapply loaded_live|]. split; [by eapply loaded_all_nonempty|].
  split; [|done]. destruct Hl as (_ & _ & Hall).
  eapply Forall_impl; [exact Hall|]. intros [k r] (df & Hr & _ & Hs). cbn in *.
  by rewrite (frame_lookup _ _ _ Hr).
Qed.

Lemma sample_load_returns :
  sample_load
  = (Returns ([("AAPL"%string, 0%nat); ("MSFT"%string, 1%nat)],
              [("AAPL"%string, 60); ("MSFT"%string, 30)],
              ["Error fetching data for JUNK: NOT_FOUND"%string]),
     sample_load.2).
Proof. by vm_compute. Qed.

Lemma X10_witness :
  keys [("AAPL"%string, 60); ("MSFT"%string, 30)]
  = keys [("AAPL"%string, 0%nat); ("MSFT"%string, 1%nat)]
  ∧ NoDup (keys [("AAPL"%string, 0%nat); ("MSFT"%string, 1%nat)])
  ∧ live sample_load.2 [("AAPL"%string, 0%nat); ("MSFT"%string, 1%nat)]
  ∧ all_nonempty sample_load.2 [("AAPL"%string, 0%nat); ("MSFT"%string, 1%nat)]
  ∧ Forall (λ kr, StronglySorted Z.le (index (frame sample_load.2 kr.2)))
      [("AAPL"%string, 0%nat); ("MSFT"%string, 1%nat)]
  ∧ ∅ ⊆ sample_load.2.
Proof.
  apply (X10_fetch_loop_builds_matching_dictionaries sample_server "key" "2024-01-01"
           "2024-01-31" sample_stocks ∅ _ _ _
           ["Error fetching data for JUNK: NOT_FOUND"%string]).
  exact sample_load_returns.
Defined.

Lemma elem_of_keys_dict_set {V} k k' (v : V) (d : dict V) :
  k' ∈ keys (dict_set k v d) ↔ k' = k ∨ k' ∈ keys d.
Proof.
  destruct (decide (k ∈ keys d)) as [Hin|Hnin].
  - rewrite keys_dict_set by done. split; [by right | by intros [->|?]].
  - rewrite keys_dict_set_new by done. rewrite elem_of_app, list_elem_of_singleton. tauto.
Qed.

Lemma fetch_all_returns get_json api_key start_date end_date (stocks : list Stock) (h : heap) :
  all_accepted get_json api_key start_date end_date stocks →
  ∃ sdd w h',
    fetch_all get_json api_key start_date end_date stocks h
    = (Returns (sdd, w, shown_errors get_json api_key start_date end_date stocks), h')
    ∧ ∀ symbol, symbol ∈ keys sdd
                ↔ fetched get_json api_key start_date end_date stocks symbol.
Proof.
  unfold fetch_all, all_accepted, fetched.
  match goal with |- context [for_each _ ?b _ _] => set (body := b) end.
  intros Hacc.
  assert (Hgen : ∀ sdd0 w0 errors0 h0,
    ∃ sdd w h',
      for_each stocks body (sdd0, w0, errors0) h0
      = (Returns (sdd, w,
                  errors0 ++ shown_errors get_json api_key start_date end_date stocks), h')
      ∧ ∀ symbol, symbol ∈ keys sdd
                  ↔ symbol ∈ keys sdd0
                    ∨ (symbol ≠ "" ∧ symbol ∈ stock_symbol <$> stocks
                       ∧ ∃ data, fetch_stock_data get_json symbol api_key start_date end_date
                                 = inr data)).
  { induction stocks as [|stock stocks IH]; intros sdd0 w0 errors0 h0.
    - exists sdd0, w0, h0. cbn. rewrite app_nil_r. split; [done|].
      intros symbol. split; [by left|]. intros [?|(_ & Hin & _)]; [done|].
      by apply elem_of_nil in Hin.
    - assert (Hacc' : ∀ symbol data,
        symbol ≠ "" ∧ symbol ∈ stock_symbol <$> stocks
        ∧ (∃ data0, fetch_stock_data get_json symbol api_key start_date end_date = inr data0) →
        fetch_stock_data get_json symbol api_key start_date end_date = inr data →
        ∃ df, process_stock_data data = Returns df).
      { intros symbol data (Hne & Hin & Hd) Hf. apply (Hacc symbol data); [|done].
        split; [done|]. split; [|done]. rewrite fmap_cons. by right. }
      specialize (IH Hacc').
      cbn [for_each]. unfold shown_errors. cbn [omap list_omap].
      fold (shown_errors get_json api_key start_date end_date stocks).
      destruct (decide (stock_symbol stock = "")) as [Hblank|Hsym].
      { destruct (IH sdd0 w0 errors0 h0) as (sdd & w & h' & Hrun & Hkeys).
        exists sdd, w, h'. split.
        { erewrite bind_returns; [exact Hrun|]. unfold body.
          by destruct (decide (stock_symbol stock = "")). }
        intros symbol. rewrite Hkeys, fmap_cons, elem_of_cons.
        split; [tauto|]. intros [?|(Hne & [->|?] & Hd)]; [tauto|done|tauto]. }
      destruct (fetch_stock_data get_json (stock_symbol stock) api_key start_date end_date)
        as [msg|data] eqn:Hfetch.
      { destruct (IH sdd0 w0 (errors0 ++ [msg]) h0) as (sdd & w & h' & Hrun & Hkeys).
        exists sdd, w, h'. split.
        - erewrite bind_returns; [rewrite Hrun; by rewrite <- app_assoc|].
          unfold body. destruct (decide (stock_symbol stock = "")); [done|].
          by rewrite Hfetch.
        - intros symbol. rewrite Hkeys, fmap_cons, elem_of_cons.
          split; [tauto|]. intros [?|(Hne & [->|?] & [d Hd])]; [tauto| |by eauto 6].
          congruence. }
      destruct (Hacc (stock_symbol stock) data) as [df Hdf]; [|done|].
      { split; [done|]. split; [rewrite fmap_cons; by left | by exists data]. }
      destruct (IH (dict_set (stock_symbol stock) (fresh (dom h0)) sdd0)
                  (dict_set (stock_symbol stock) (stock_weight stock) w0) errors0
                  (<[fresh (dom h0) := df]> h0)) as (sdd & w & h' & Hrun & Hkeys).
      exists sdd, w, h'. split.
      + erewrite bind_returns; [exact Hrun|].
        unfold body. destruct (decide (stock_symbol stock = "")); [done|].
        rewrite Hfetch, Hdf. reflexivity.
      + intros symbol. rewrite Hkeys, elem_of_keys_dict_set, fmap_cons, elem_of_cons.
        split.
        * intros [[->|?]|(? & ? & ?)]; [right; by eauto 6|tauto|tauto].
        * intros [?|(Hne & [->|?] & Hd)]; tauto. }
  destruct (Hgen [] [] [] h) as (sdd & w & h' & Hrun & Hkeys).
  exists sdd, w, h'. split; [exact Hrun|].
  intros symbol. rewrite Hkeys. split; [|tauto].
  intros [Hin|?]; [by apply elem_of_nil in Hin | done].
Qed.

Lemma fetch_all_returns_inv get_json api_key start_date end_date (stocks : list Stock)
    (h h' : heap) sdd w errors :
  fetch_all get_json api_key start_date end_date stocks h = (Returns (sdd, w, errors), h') →
  all_accepted get_json api_key start_date end_date stocks.
Proof.
  unfold fetch_all, all_accepted, fetched.
  match goal with |- context [for_each _ ?b _ _] => set (body := b) end.
  generalize (([], [], []) : list (string * nat) * list (string * Z) * list string).
  revert h. induction stocks as [|stock stocks IH]; intros h st Hrun symbol data.
  - intros (_ & Hin & _). by apply elem_of_nil in Hin.
  - cbn [for_each] in Hrun. apply bind_returns_inv in Hrun as (st1 & h1 & Hstep & Hrest).
    intros (Hne & Hin & Hd) Hfetch. rewrite fmap_cons in Hin.
    apply elem_of_cons in Hin as [->|Hin]; [|by eapply (IH h1 st1 Hrest)].
    unfold body in Hstep. destruct st as [[sdd0 w0] errors0].
    destruct (decide (stock_symbol stock = "")); [done|].
    rewrite Hfetch in Hstep.
    apply bind_returns_inv in Hstep as (df & h2 & Hproc & _).
    unfold lift in Hproc. injection Hproc as Hproc _. by exists df.
Qed.

(** X11.  A symbol whose response has no [results] never stops the fetch
    loop: the loop returns exactly when the table builder accepts every
    payload that was fetched, and it then has shown one error for each
    selected symbol without [results] (in the order of the session's stocks)
    and holds data for exactly the other selected, non-blank symbols. *)
Theorem X11_failed_fetches_do_not_abort
    (get_json : string → Response) (api_key start_date end_date : string)
    (stocks : list Stock) (h : heap) :
  ((∃ sdd w errors h',
      fetch_all get_json api_key start_date end_date stocks h
      = (Returns (sdd, w, errors), h'))
   ↔ all_accepted get_json api_key start_date end_date stocks)
  ∧ ∀ sdd w errors h',
      fetch_all get_json api_key start_date end_date stocks h
      = (Returns (sdd, w, errors), h') →
      errors = shown_errors get_json api_key start_date end_date stocks
      ∧ ∀ symbol, symbol ∈ keys sdd
                  ↔ fetched get_json api_key start_date end_date stocks symbol.
Proof.
  split.
  - split.
    + intros (sdd & w & errors & h' & Hrun). by eapply fetch_all_returns_inv.
    + intros Hacc.
      destruct (fetch_all_returns get_json api_key start_date end_date stocks h Hacc)
        as (sdd & w & h' & Hrun & _).
      by eexists sdd, w, _, h'.
  - intros sdd w errors h' Hrun.
    pose proof (fetch_all_returns_inv _ _ _ _ _ _ _ _ _ _ Hrun) as Hacc.
    destruct (fetch_all_returns get_json api_key start_date end_date stocks h Hacc)
      as (sdd' & w' & h'' & Hrun' & Hkeys).
    rewrite Hrun in Hrun'. by injection Hrun' as -> -> -> ->.
Qed.

Lemma X11_witness :
  ((∃ sdd w errors h',
      fetch_all sample_server "key" "2024-01-01" "2024-01-31" sample_stocks ∅
      = (Returns (sdd, w, errors), h'))
   ↔ all_accepted sample_server "key" "2024-01-01" "2024-01-31" sample_stocks)
  ∧ ∀ sdd w errors h',
      fetch_all sample_server "key" "2024-01-01" "2024-01-31" sample_stocks ∅
      = (Returns (sdd, w, errors), h') →
      errors = shown_errors sample_server "key" "2024-01-01" "2024-01-31" sample_stocks
      ∧ ∀ symbol, symbol ∈ keys sdd
                  ↔ fetched sample_server "key" "2024-01-01" "2024-01-31" sample_stocks symbol.
Proof.
  apply (X11_failed_fetches_do_not_abort sample_server "key" "2024-01-01" "2024-01-31"
           sample_stocks ∅).
Defined.

(** ** The widgets of the sidebar *)

Lemma edit_stocks_spec (selected : nat → string) (entered : nat → Z) (remove : nat → bool)
    (stocks : list Stock) :
  edit_stocks selected entered remove stocks
  = ((λ idx, mkStock (selected idx) (entered idx)) <$> seq 0 (length stocks),
     foldr Z.add 0 (entered <$> seq 0 (length stocks)),
     filter (λ idx, remove idx = true) (seq 0 (length stocks))).
Proof.
  unfold edit_stocks.
  assert (Hgen : ∀ (l : list nat) edited total marked,
    foldl (λ '(edited, total_weight, stocks_to_remove) idx,
             (edited ++ [mkStock (selected idx) (entered idx)],
              total_weight + entered idx,
              if remove idx then stocks_to_remove ++ [idx] else stocks_to_remove))
      (edited, total, marked) l
    = (edited ++ ((λ idx, mkStock (selected idx) (entered idx)) <$> l),
       total + foldr Z.add 0 (entered <$> l),
       marked ++ filter (λ idx, remove idx = true) l)).
  { induction l as [|idx l IH]; intros edited total marked.
    - cbn. by rewrite !app_nil_r, Z.add_0_r.
    - cbn [foldl]. rewrite IH. rewrite filter_cons. cbn [fmap list_fmap foldr].
      f_equal; [f_equal|].
      + by rewrite <- app_assoc.
      + lia.
      + destruct (remove idx); cbn.
        * rewrite decide_True by done. by rewrite <- app_assoc.
        * by rewrite decide_False by done. }
  rewrite Hgen. by rewrite Z.add_0_l.
Qed.

Lemma fetch_all_weights get_json api_key start_date end_date (stocks : list Stock)
    (h h' : heap) sdd w errors :
  NoDup (stock_symbol <$> stocks) →
  Forall (fetched get_json api_key start_date end_date stocks) (stock_symbol <$> stocks) →
  fetch_all get_json api_key start_date end_date stocks h = (Returns (sdd, w, errors), h') →
  w = (λ stock, (stock_symbol stock, stock_weight stock)) <$> stocks.
Proof.
  unfold fetch_all.
  match goal with |- context [for_each _ ?b _ _] => set (body := b) end.
  intros Hnd Hall.
  assert (Hall' : Forall (λ symbol, symbol ≠ ""
            ∧ ∃ data, fetch_stock_data get_json symbol api_key start_date end_date = inr data)
            (stock_symbol <$> stocks)).
  { eapply Forall_impl; [exact Hall|]. by intros symbol (? & _ & ?). }
  clear Hall.
  assert (Hgen : ∀ sdd0 w0 errors0 h0,
    (∀ symbol, symbol ∈ stock_symbol <$> stocks → symbol ∉ keys w0) →
    for_each stocks body (sdd0, w0, errors0) h0 = (Returns (sdd, w, errors), h') →
    w = w0 ++ ((λ stock, (stock_symbol stock, stock_weight stock)) <$> stocks)).
  { induction stocks as [|stock stocks IH]; intros sdd0 w0 errors0 h0 Hnew Hrun.
    - cbn in Hrun. injection Hrun as <- <- <- <-. by rewrite app_nil_r.
    - rewrite fmap_cons in Hnd, Hall'.
      apply NoDup_cons in Hnd as [Hnin Hnd].
      apply Forall_cons in Hall' as [[Hne [data Hfetch]] Hall'].
      cbn [for_each] in Hrun. apply bind_returns_inv in Hrun as (st1 & h1 & Hstep & Hrest).
      unfold body in Hstep. destruct (decide (stock_symbol stock = "")); [done|].
      rewrite Hfetch in Hstep.
      apply bind_returns_inv in Hstep as (df & h2 & _ & Hstep).
      apply bind_returns_inv in Hstep as (r & h3 & _ & Hstep).
      injection Hstep as <- <-.
      rewrite (dict_set_fresh _ _ w0) in Hrest by (apply Hnew; rewrite fmap_cons; by left).
      assert (Hnew' : ∀ symbol, symbol ∈ stock_symbol <$> stocks →
                symbol ∉ keys (w0 ++ [(stock_symbol stock, stock_weight stock)])).
      { intros symbol Hin. unfold keys. rewrite fmap_app, elem_of_app.
        intros [Hw0|Hs%list_elem_of_singleton].
        - eapply Hnew; [|exact Hw0]. rewrite fmap_cons. by right.
        - cbn in Hs. by subst. }
      rewrite (IH Hnd Hall' _ _ _ _ Hnew' Hrest). by rewrite <- app_assoc. }
  intros Hrun. apply (Hgen [] [] [] h); [|done].
  intros symbol _ Hin. by apply elem_of_nil in Hin.
Qed.

(** X12.  When no stock is removed in the run and the selected symbols are
    distinct, not blank and all fetched, the weight map the fetch loop builds
    holds every entered weight once, so it sums to the total the sidebar
    shows (to 100 when the analysis is allowed to run). *)
Theorem X12_weight_map_sums_to_the_total
    (get_json : string → Response) (api_key start_date end_date : string)
    (selected : nat → string) (entered : nat → Z) (remove : nat → bool)
    (stocks edited : list Stock) (total_weight : Z) (h h' : heap)
    (stock_data_dict : dict ref) (weights : dict Z) (errors : list string) :
  edit_stocks selected entered remove stocks = (edited, total_weight, []) →
  NoDup (stock_symbol <$> edited) →
  Forall (fetched get_json api_key start_date end_date edited) (stock_symbol <$> edited) →
  fetch_all get_json api_key start_date end_date edited h
  = (Returns (stock_data_dict, weights, errors), h') →
  weights = (λ stock, (stock_symbol stock, stock_weight stock)) <$> edited
  ∧ weights_total weights = total_weight.
Proof.
  intros Hedit Hnd Hall Hrun.
  pose proof (fetch_all_weights _ _ _ _ _ _ _ _ _ _ Hnd Hall Hrun) as ->.
  split; [done|]. rewrite edit_stocks_spec in Hedit. injection Hedit as <- <- _.
  unfold weights_total, values. by rewrite <- !list_fmap_compose.
Qed.

Lemma X12_witness :
  [("AAPL"%string, 60); ("MSFT"%string, 40)]
  = (λ stock, (stock_symbol stock, stock_weight stock)) <$> sample_edited
  ∧ weights_total [("AAPL"%string, 60); ("MSFT"%string, 40)] = 100.
Proof.
  apply (X12_weight_map_sums_to_the_total sample_server "key" "2024-01-01" "2024-01-31"
           sample_selected sample_entered (λ _, false) sample_session sample_edited 100 ∅
           (fetch_all sample_server "key" "2024-01-01" "2024-01-31" sample_edited ∅).2
           [("AAPL"%string, 0%nat); ("MSFT"%string, 1%nat)] _ []).
  - reflexivity.
  - by_compute.
  - repeat constructor; try discriminate; try by_compute.
    + by exists shuffled_payload.
    + by exists (mkPayload (Some ascending_bars)).
  - by vm_compute.
Defined.

Lemma pops_raises {A} (e : exn) (idxs : list nat) :
  foldl (λ acc idx, match acc with Returns l => pop idx l | _ => acc end)
    (Raises e : result (list A)) idxs = Raises e.
Proof. by induction idxs. Qed.

Lemma pops_non_scalar {A} (idxs : list nat) :
  foldl (λ acc idx, match acc with Returns l => pop idx l | _ => acc end)
    (NonScalar : result (list A)) idxs = NonScalar.
Proof. by induction idxs. Qed.

(** Pops that succeed on a list succeed on the list with one more element
    at its end, and leave that element where it is. *)
Lemma pops_snoc {A} (idxs : list nat) : ∀ (l r : list A) (x : A),
  foldl (λ acc idx, match acc with Returns l => pop idx l | _ => acc end) (Returns l) idxs
  = Returns r →
  foldl (λ acc idx, match acc with Returns l => pop idx l | _ => acc end)
    (Returns (l ++ [x])) idxs
  = Returns (r ++ [x]).
Proof.
  induction idxs as [|idx idxs IH]; intros l r x.
  - cbn. by intros [= ->].
  - cbn [foldl]. unfold pop at 2 4. rewrite length_app. cbn [length].
    destruct (decide (idx < length l)%nat) as [Hlt|Hge].
    + rewrite decide_True by lia. intros Hrun.
      replace (delete idx (l ++ [x])) with (delete idx l ++ [x]); [by apply IH|].
      clear -Hlt. revert idx Hlt. induction l as [|y l IHl]; intros [|idx] Hlt;
        cbn in *; try lia; [done|]. f_equal. apply IHl. lia.
    + by rewrite pops_raises.
Qed.

Lemma delete_last {A} (l : list A) (x : A) : delete (length l) (l ++ [x]) = l.
Proof. induction l as [|y l IH]; [done|]. cbn. f_equal. exact IH. Qed.

Lemma remove_marked_kept (remove : nat → bool) (stocks : list Stock) :
  remove_marked (filter (λ idx, remove idx = true) (seq 0 (length stocks))) stocks
  = Returns (kept remove stocks).
Proof.
  unfold remove_marked, kept.
  induction stocks as [|stock stocks IH] using rev_ind; [done|].
  rewrite length_app. cbn [length]. rewrite Nat.add_1_r, seq_S, Nat.add_0_l.
  rewrite filter_app, reverse_app.
  rewrite zip_with_app by (by rewrite length_seq).
  rewrite filter_app, fmap_app.
  rewrite filter_cons, filter_nil. cbn [zip zip_with].
  rewrite (filter_cons _ (length stocks, stock)), filter_nil. cbn [fst].
  destruct (remove (length stocks)) eqn:Hrm.
  - rewrite decide_True by done. rewrite decide_False by done.
    cbn [reverse app fmap list_fmap]. rewrite app_nil_r.
    change (reverse [length stocks]) with [length stocks]. cbn [app foldl].
    unfold pop at 2. rewrite length_app. cbn [length].
    rewrite decide_True by lia. rewrite delete_last. exact IH.
  - rewrite decide_False by done. rewrite decide_True by done.
    change (reverse []) with (@nil nat). cbn [app fmap list_fmap snd].
    by apply pops_snoc.
Qed.

Lemma remove_marked_after_edit
    (selected : nat → string) (entered : nat → Z) (remove : nat → bool)
    (stocks edited : list Stock) (total_weight : Z) (stocks_to_remove : list nat) :
  edit_stocks selected entered remove stocks = (edited, total_weight, stocks_to_remove) →
  remove_marked stocks_to_remove edited = Returns (kept remove edited).
Proof.
  rewrite edit_stocks_spec. intros [= He _ Hr]. subst edited stocks_to_remove.
  set (edited := (λ idx, mkStock (selected idx) (entered idx)) <$> seq 0 (length stocks)).
  assert (Hlen : length edited = length stocks).
  { unfold edited. by rewrite length_fmap, length_seq. }
  rewrite <- Hlen. apply remove_marked_kept.
Qed.

(** X13.  Removing stocks: popping the collected indexes from the last to
    the first never runs out of range, and leaves exactly the stocks whose
    "Remove" button was not pressed, in their order and with their edited
    values. *)
Theorem X13_remove_pops_exactly_the_marked_stocks
    (selected : nat → string) (entered : nat → Z) (remove : nat → bool)
    (stocks edited : list Stock) (total_weight : Z) (stocks_to_remove : list nat) :
  edit_stocks selected entered remove stocks = (edited, total_weight, stocks_to_remove) →
  remove_marked stocks_to_remove edited = Returns (kept remove edited).
Proof. apply remove_marked_after_edit. Qed.

Lemma length_kept (remove : nat → bool) (stocks : list Stock) :
  (length (kept remove stocks) ≤ length stocks)%nat.
Proof.
  unfold kept. rewrite length_fmap.
  etrans; [apply length_filter|]. by rewrite length_zip_with, length_seq, Nat.min_id.
Qed.

Lemma X13_witness :
  remove_marked [1%nat] sample_edited = Returns (kept remove_second sample_edited).
Proof.
  apply (X13_remove_pops_exactly_the_marked_stocks sample_selected sample_entered
           remove_second sample_session sample_edited 100 [1%nat]).
  reflexivity.
Defined.

Lemma length_add_stock (pressed : bool) (stocks : list Stock) :
  (length stocks ≤ 5)%nat → (length (add_stock pressed stocks) ≤ 5)%nat.
Proof.
  intros Hlen. unfold add_stock. destruct pressed; [|done]. cbn.
  case_bool_decide; [|done]. rewrite length_app. cbn. lia.
Qed.

(** X14.  A run of the sidebar never fails and never leaves more than five
    stocks in the session: from at most five stocks, "Add Stock", the edits
    and any set of "Remove" buttons give at most five stocks again, namely
    the edited stocks whose button was not pressed, while the total shown
    counts every edited weight (those of the removed stocks too). *)
Theorem X14_sidebar_keeps_at_most_five_stocks
    (add_pressed : bool) (selected : nat → string) (entered : nat → Z) (remove : nat → bool)
    (stocks : list Stock) :
  (length stocks ≤ 5)%nat →
  ∃ stocks' : list Stock,
    sidebar_run add_pressed selected entered remove stocks
    = Returns (stocks',
               foldr Z.add 0 (entered <$> seq 0 (length (add_stock add_pressed stocks))))
    ∧ stocks' = kept remove ((λ idx, mkStock (selected idx) (entered idx))
                             <$> seq 0 (length (add_stock add_pressed stocks)))
    ∧ (length stocks' ≤ 5)%nat.
Proof.
  intros Hlen. unfold sidebar_run.
  destruct (edit_stocks selected entered remove (add_stock add_pressed stocks))
    as [[edited total] marked] eqn:Hedit.
  rewrite (remove_marked_after_edit selected entered remove _ _ _ _ Hedit).
  rewrite edit_stocks_spec in Hedit. injection Hedit as <- <- _.
  eexists. split; [done|]. split; [done|].
  etrans; [apply length_kept|]. rewrite length_fmap, length_seq.
  by apply length_add_stock.
Qed.

Lemma X14_witness :
  ∃ stocks' : list Stock,
    sidebar_run true sample_selected sample_entered remove_second sample_session
    = Returns (stocks',
               foldr Z.add 0 (sample_entered <$> seq 0 (length (add_stock true sample_session))))
    ∧ stocks' = kept remove_second
                  ((λ idx, mkStock (sample_selected idx) (sample_entered idx))
                   <$> seq 0 (length (add_stock true sample_session)))
    ∧ (length stocks' ≤ 5)%nat.
Proof.
  apply (X14_sidebar_keeps_at_most_five_stocks true sample_selected sample_entered
           remove_second sample_session).
  cbn. lia.
Defined.

(** ** What the analysis can raise *)

Lemma bind_raises_inv {A B} (m : M A) (f : A → M B) (h h' : heap) e :
  (m ≫= f) h = (Raises e, h') →
  m h = (Raises e, h') ∨ ∃ a h1, m h = (Returns a, h1) ∧ f a h1 = (Raises e, h').
Proof.
  unfold mbind, M_bind. destruct (m h) as [[a| |] h1].
  - intros Hf. right. by exists a, h1.
  - intros [= -> ->]. by left.
  - intros [=].
Qed.

Lemma quiet_ret {A} (a : A) (h : heap) : quiet (mret a) h.
Proof. by split. Qed.

Lemma quiet_bind {A B} (m : M A) (f : A → M B) (h : heap) :
  quiet m h → (∀ a, (m h).1 = Returns a → quiet (f a) h) → quiet (m ≫= f) h.
Proof.
  intros [Hh Hr] Hf. unfold quiet, mbind, M_bind.
  destruct (m h) as [[a| |] h1]; cbn in *; subst.
  - by apply Hf.
  - by destruct (Hr e).
  - by split.
Qed.

Lemma quiet_for_each {A S} (xs : list A) (body : A → S → M S) (h : heap) :
  (∀ x s, x ∈ xs → quiet (body x s) h) → ∀ s, quiet (for_each xs body s) h.
Proof.
  induction xs as [|x xs IH]; intros Hbody s; [apply quiet_ret|].
  cbn [for_each]. apply quiet_bind; [apply Hbody; by left|].
  intros s' _. apply IH. intros x' s0 Hin. apply Hbody. by right.
Qed.

Lemma rows_at_present date (df : list (Z * Bar)) : date ∈ index df → rows_at date df ≠ [].
Proof.
  unfold index, rows_at. induction df as [|[d b] df IH]; [by intros ?%elem_of_nil|].
  rewrite fmap_cons, filter_cons. cbn [fst]. intros [->|Hin]%elem_of_cons.
  - by rewrite decide_True.
  - destruct (decide (d = date)); [done | by apply IH].
Qed.

Lemma quiet_loc c date (df : list (Z * Bar)) (h : heap) :
  date ∈ index df → quiet (loc date c df) h.
Proof.
  intros Hin%rows_at_present. unfold loc.
  destruct (rows_at date df) as [|b [|b' bs]];
    [by destruct Hin | apply quiet_ret | by split].
Qed.

(** On non-empty frames and with weights over the symbols, the only
    exception of the aggregator is the one of an empty intersection. *)
Lemma aggregate_only_raises_no_date c (h h' : heap) (sdd : dict ref) (w : dict Z) e :
  sdd ≠ [] →
  NoDup (keys sdd) →
  all_nonempty h sdd →
  weights_covered w sdd →
  aggregate c sdd w h = (Raises e, h') →
  e = KeyError "None of ['date'] are in the columns".
Proof.
  intros Hsdd Hnd Hne Hcov.
  destruct (normalize_all_returns c sdd h Hne Hnd) as (rs & h1 & Hrun & Hsub & Hall).
  assert (Hlen : length (keys sdd) = length rs).
  { unfold keys. rewrite length_fmap. by eapply Forall2_length. }
  unfold aggregate. erewrite bind_returns; [|exact Hrun].
  unfold intersect_all. rewrite values_zip by done.
  erewrite bind_returns; [|apply intersect_loop].
  rewrite (Forall2_frames_rebased c h h1 sdd rs Hall), foldl_intersect_rebased.
  destruct sdd as [|kr sdd]; [done|].
  rewrite foldl_intersect_None by done.
  erewrite bind_returns; [|done].
  fold (sorted_common_dates (values (frames h (kr :: sdd)))).
  set (dates := sorted_common_dates (values (frames h (kr :: sdd)))).
  assert (Hquiet : quiet (weighted_rows c (zip (keys (kr :: sdd)) rs) w dates) h1).
  { unfold weighted_rows. apply quiet_for_each. intros date rows Hdate.
    apply quiet_bind; [|intros; apply quiet_ret].
    unfold weighted_value. apply quiet_for_each. intros [sym wt] value Hsym.
    destruct (dict_get_zip (λ r r', frame h1 r' = rebased c (frame h r))
                (kr :: sdd) rs sym Hall) as (r & r' & Hr & Hr' & Hfr).
    { apply Hcov. unfold keys. apply list_elem_of_fmap. by exists (sym, wt). }
    rewrite Hr'. apply quiet_bind; [by split|]. intros d [= <-].
    apply quiet_bind; [|intros; apply quiet_ret].
    apply quiet_loc. fold (frame h1 r'). rewrite Hfr, index_rebased.
    apply elem_of_sorted_common_dates in Hdate.
    apply elem_of_common_dates in Hdate; [|done].
    rewrite Forall_forall in Hdate. apply Hdate.
    rewrite values_frames. apply list_elem_of_fmap. exists r. split; [done|].
    apply dict_get_elem_of in Hr. unfold values. apply list_elem_of_fmap.
    by exists (sym, r). }
  destruct Hquiet as [Hh Hno]. unfold mbind at 1, M_bind at 1.
  destruct (weighted_rows c (zip (keys (kr :: sdd)) rs) w dates h1) as [[rows| |] h2];
    cbn in *.
  - destruct rows; cbn; [by intros [= <- _] | done].
  - by destruct (Hno e0).
  - done.
Qed.

Lemma process_stock_data_raises (data : Payload) e :
  is_Some (results data) →
  process_stock_data data = Raises e →
  e = KeyError "date" ∨ e = OutOfBoundsDatetime "cannot convert input with unit 'ms'".
Proof.
  unfold process_stock_data. intros [rs ->]. destruct rs as [|r rs].
  - intros [= <-]. by left.
  - destruct (forallb _ _); [done|]. intros [= <-]. by right.
Qed.

Lemma fetch_stock_data_results get_json symbol api_key start_date end_date data :
  fetch_stock_data get_json symbol api_key start_date end_date = inr data →
  is_Some (results data).
Proof.
  unfold fetch_stock_data.
  destruct (results (body (get_json _))) as [rs|] eqn:Hrs; [|done].
  intros [= <-]. by rewrite Hrs.
Qed.

Lemma fetch_all_raises get_json api_key start_date end_date (stocks : list Stock)
    (h h' : heap) e :
  fetch_all get_json api_key start_date end_date stocks h = (Raises e, h') →
  e = KeyError "date" ∨ e = OutOfBoundsDatetime "cannot convert input with unit 'ms'".
Proof.
  unfold fetch_all.
  match goal with |- context [for_each _ ?b _ _] => set (body := b) end.
  generalize (([], [], []) : list (string * nat) * list (string * Z) * list string).
  revert h. induction stocks as [|stock stocks IH]; intros h st; [done|].
  cbn [for_each]. intros [Hstep|(st1 & h1 & _ & Hrest)]%bind_raises_inv;
    [|by eapply IH].
  unfold body in Hstep. destruct st as [[sdd0 w0] errors0].
  destruct (decide (stock_symbol stock = "")); [done|].
  destruct (fetch_stock_data _ _ _ _ _) as [msg|data] eqn:Hfetch; [done|].
  apply fetch_stock_data_results in Hfetch.
  apply bind_raises_inv in Hstep as [Hproc|(df & h2 & _ & Hstep)].
  - unfold lift in Hproc. injection Hproc as Hproc _.
    by eapply process_stock_data_raises.
  - by apply bind_raises_inv in Hstep as [Hstep|(r & h3 & _ & Hstep)].
Qed.

(** X15.  The analysis behind the "Analyze Portfolio" button can only fail
    in three ways: a fetched payload with an empty [results] array
    ([KeyError] on ['date']), a timestamp out of range, or series with no
    common date ([KeyError] of [set_index]).  It never fails on a symbol
    that could not be fetched, never reads the first row of an empty series
    and never intersects an empty dictionary: it raises no [IndexError] and
    no [TypeError]. *)
Theorem X15_analysis_raises_only_three_errors
    (get_json : string → Response) (pressed : bool) (total_weight : Z)
    (api_key start_date end_date : string) (stocks : list Stock) (h h' : heap) (e : exn) :
  analyze get_json pressed total_weight api_key start_date end_date stocks h
  = (Raises e, h') →
  e = KeyError "date"
  ∨ e = OutOfBoundsDatetime "cannot convert input with unit 'ms'"
  ∨ e = KeyError "None of ['date'] are in the columns".
Proof.
  unfold analyze. destruct (pressed && bool_decide (total_weight = 100)); [|done].
  intros [Hload|([[sdd w] errors] & h1 & Hload & Hrest)]%bind_raises_inv.
  - apply fetch_all_raises in Hload as [->| ->]; auto.
  - apply fetch_all_loaded in Hload as [Hl _].
    destruct sdd as [|kr sdd]; [done|].
    apply bind_raises_inv in Hrest as [Hagg|(out & h2 & _ & Hrest)]; [|done].
    right. right.
    apply (aggregate_only_raises_no_date Close h1 h' (kr :: sdd) w); [done| | | |done].
    + apply Hl.
    + by eapply loaded_all_nonempty.
    + destruct Hl as (Hk & _). unfold weights_covered. by rewrite Hk.
Qed.

Lemma X15_witness :
  KeyError "date" = KeyError "date"
  ∨ KeyError "date" = OutOfBoundsDatetime "cannot convert input with unit 'ms'"
  ∨ KeyError "date" = KeyError "None of ['date'] are in the columns".
Proof.
  apply (X15_analysis_raises_only_three_errors empty_server true 100 "key" "2024-01-01"
           "2024-01-31" [mkStock "AAPL" 100] ∅ ∅ (KeyError "date")).
  by vm_compute.
Defined.

(** ** The percentage change of the statistics table *)

Lemma column_values_scale_pow2 c n (df : list (Z * Bar)) :
  Forall (scalable n) (column_values c df) →
  column_values c (scale c (F64.pow2 n) df) = shift n <$> column_values c df.
Proof.
  unfold column_values, scale. intros Hall.
  rewrite <- !list_fmap_compose. rewrite !Forall_fmap in Hall.
  apply Forall_fmap_ext_1. eapply Forall_impl; [exact Hall|].
  intros [d b] Hb. unfold compose in *. cbn [fst snd] in *.
  by rewrite get_set_col, (mul_pow2 n _ Hb).
Qed.

Lemma last_fmap {A B} (f : A → B) (l : list A) : last (f <$> l) = f <$> last l.
Proof.
  induction l as [|a [|a' l] IH]; [done..|].
  change (last (f <$> a :: a' :: l)) with (last (f <$> a' :: l)).
  by rewrite IH.
Qed.

(** X16.  A series that ends on the close it starts with (a series of one
    bar, for one) has a price change of exactly [+0] when that close is a
    finite number other than zero, and of NaN when it is a zero, an infinity
    or NaN: the change is never a small rounding residue. *)
Theorem X16_flat_series_has_zero_change (df : list (Z * Bar)) (x : F64.t) :
  head (column_values Close df) = Some x →
  last (column_values Close df) = Some x →
  price_change df
  = Returns (if F64.is_finite_nonzero x then F64.zero else F64.nan).
Proof.
  intros Hhead Hlast. unfold price_change. rewrite Hhead, Hlast.
  destruct (F64.is_finite_nonzero x) eqn:Hx.
  - rewrite div_self by done. by vm_compute.
  - rewrite div_self_nan by done. by vm_compute.
Qed.

Lemma X16_witness :
  price_change sample_B
  = Returns (if F64.is_finite_nonzero (F64.of_Z 50) then F64.zero else F64.nan).
Proof.
  apply (X16_flat_series_has_zero_change sample_B (F64.of_Z 50)); reflexivity.
Defined.

(** X17.  The price change does not depend on the unit of the closes: when
    every close is multiplied by a power of two that scales it exactly (a
    full mantissa and an exponent that stays in range, or a zero, an
    infinity or NaN), the change, and an [IndexError] on an empty series,
    stay what they are. *)
Theorem X17_price_change_ignores_the_unit (n : Z) (df : list (Z * Bar)) :
  Forall (scalable n) (column_values Close df) →
  price_change (scale Close (F64.pow2 n) df) = price_change df.
Proof.
  intros Hall. unfold price_change.
  rewrite (column_values_scale_pow2 Close n df Hall), last_fmap, head_fmap.
  destruct (last (column_values Close df)) as [latest|]; [|done].
  destruct (head (column_values Close df)) as [first|]; [|done].
  cbn [fmap option_fmap option_map]. by rewrite div_shift.
Qed.

Lemma X17_witness :
  price_change (scale Close (F64.pow2 3) sample_A) = price_change sample_A.
Proof.
  apply (X17_price_change_ignores_the_unit 3 sample_A).
  repeat constructor; by_compute.
Defined.

(** ** The charts *)

Lemma column_values_rebased c d0 b0 (df : list (Z * Bar)) :
  column_values c (rebased c ((d0, b0) :: df))
  = rebase_values (get_col c b0) (column_values c ((d0, b0) :: df)).
Proof.
  unfold column_values, rebased, rebase_values.
  rewrite <- !list_fmap_compose. apply list_fmap_ext. intros i [d b] _.
  unfold compose. cbn [fst snd]. by rewrite get_set_col.
Qed.

Lemma stock_trace_step field customdata (h : heap) (weights : dict Z) symbol (r : ref)
    (traces : list Trace) :
  frame h r ≠ [] → symbol ∈ keys weights →
  (d ← deref r;
   first ← iloc0 (column_values field d);
   weight ← getitem symbol weights;
   mret (traces ++ [mkTrace (index d) (rebase_values first (column_values field d))
                      (symbol +:+ " (" +:+ pretty weight +:+ "%)") (customdata d)])) h
  = (Returns (traces ++ [stock_trace field customdata h weights (symbol, r)]), h).
Proof.
  intros Hne Hin. unfold stock_trace. cbn [fst snd].
  destruct (dict_get_keys _ _ Hin) as [weight Hw].
  unfold mbind, M_bind, deref, getitem. fold (frame h r).
  destruct (frame h r) as [|[d0 b0] df] eqn:Hdf; [done|].
  rewrite Hw, column_values_rebased. reflexivity.
Qed.

Lemma stock_traces_loop field customdata (h : heap) (weights : dict Z) (sdd : dict ref) :
  ∀ traces : list Trace,
  all_nonempty h sdd → keys sdd ⊆ keys weights →
  for_each sdd (λ '(symbol, df) traces,
    d ← deref df;
    first ← iloc0 (column_values field d);
    weight ← getitem symbol weights;
    mret (traces ++ [mkTrace (index d) (rebase_values first (column_values field d))
                       (symbol +:+ " (" +:+ pretty weight +:+ "%)") (customdata d)])) traces h
  = (Returns (traces ++ (stock_trace field customdata h weights <$> sdd)), h).
Proof.
  induction sdd as [|[symbol r] sdd IH]; intros traces Hne Hsub.
  - cbn. by rewrite app_nil_r.
  - apply Forall_cons in Hne as [Hr Hne]. cbn [for_each].
    erewrite bind_returns; [|apply stock_trace_step; [exact Hr|]].
    + rewrite IH; [by rewrite <- app_assoc | done |].
      intros k Hk. apply Hsub. unfold keys. rewrite fmap_cons. by right.
    + apply Hsub. unfold keys. rewrite fmap_cons. by left.
Qed.

Lemma stock_traces_stray field customdata (h : heap) (weights : dict Z)
    (pre post : dict ref) symbol (r : ref) :
  all_nonempty h (pre ++ (symbol, r) :: post) →
  keys pre ⊆ keys weights → symbol ∉ keys weights →
  stock_traces field customdata (pre ++ (symbol, r) :: post) weights h
  = (Raises (KeyError symbol), h).
Proof.
  intros Hne Hpre Hsym. unfold stock_traces.
  apply Forall_app in Hne as [Hne1 Hne2]. apply Forall_cons in Hne2 as [Hr _].
  rewrite for_each_app. erewrite bind_returns; [|by apply stock_traces_loop].
  cbn [for_each]. unfold mbind, M_bind, deref, getitem. fold (frame h r).
  cbn [snd] in Hr. destruct (frame h r) as [|[d0 b0] df]; [done|].
  by rewrite (dict_get_None _ _ Hsym).
Qed.

Lemma aggregate_returns_nonempty c (h h' : heap) (sdd : dict ref) (w : dict Z) out :
  live h sdd → aggregate c sdd w h = (Returns out, h') → all_nonempty h' sdd.
Proof.
  intros Hlive Hrun.
  assert (Hsub : h ⊆ h').
  { pose proof (preserving_aggregate c sdd w h) as Hp. by rewrite Hrun in Hp. }
  apply (all_nonempty_weaken h h'); [done|].
  destruct (empty_or_all_nonempty h sdd) as [Hne|Hex]; [done|].
  apply Exists_exists in Hex as ([k r] & Hin & Hempty). cbn in Hempty.
  unfold live in Hlive. rewrite Forall_forall in Hlive.
  destruct (Hlive _ Hin) as [df Hdf]. cbn in Hdf.
  rewrite (frame_lookup _ _ _ Hdf) in Hempty. subst df.
  destruct (aggregate_raises_on_empty_series c h sdd w k r Hin Hdf) as [h'' Hr].
  congruence.
Qed.

Lemma stock_trace_weaken field customdata (h h' : heap) (weights : dict Z) (sdd : dict ref) :
  h ⊆ h' → live h sdd →
  stock_trace field customdata h' weights <$> sdd
  = stock_trace field customdata h weights <$> sdd.
Proof.
  intros Hsub Hlive. apply Forall_fmap_ext_1. eapply Forall_impl; [exact Hlive|].
  intros [k r] Hr. unfold stock_trace. cbn [fst snd] in *.
  by rewrite (frame_weaken h h' r Hsub Hr).
Qed.

Lemma chart_traces_returns (h h' : heap) (stock_data_dict : dict ref)
    (weights : dict Z) (portfolio_df combined_volume_df : list (Z * F64.t)) :
  live h stock_data_dict →
  keys stock_data_dict ⊆ keys weights →
  calculate_combined_volume stock_data_dict weights h = (Returns combined_volume_df, h') →
  chart_traces stock_data_dict weights portfolio_df h
  = (Returns
       ((stock_trace Close close_and_vwap h weights <$> stock_data_dict)
          ++ [mkTrace portfolio_df.*1 portfolio_df.*2 "Portfolio" no_customdata],
        (stock_trace Volume volume_only h weights <$> stock_data_dict)
          ++ [mkTrace combined_volume_df.*1 combined_volume_df.*2 "Combined Volume"
                no_customdata]), h').
Proof.
  intros Hlive Hsub Hrun. unfold chart_traces.
  assert (Hh : h ⊆ h').
  { pose proof (preserving_aggregate Volume stock_data_dict weights h) as Hp.
    unfold calculate_combined_volume in Hrun. by rewrite Hrun in Hp. }
  pose proof (aggregate_returns_nonempty _ _ _ _ _ _ Hlive Hrun) as Hne.
  erewrite bind_returns; [|exact Hrun].
  erewrite bind_returns; [|by apply stock_traces_loop].
  erewrite bind_returns; [|by apply stock_traces_loop].
  cbn [app]. by rewrite !(stock_trace_weaken _ _ h h').
Qed.

(** X18.  The charts draw every stock: when the combined volume can be
    computed and every stock has a weight, each figure holds one trace per
    stock, in the order of the dictionary, followed by the composite.  A
    stock's trace plots the dates of its own series (not the common dates
    only) against the rebased values the aggregator sums, under the name
    [SYMBOL (WEIGHT%)]. *)
Theorem X18_charts_draw_every_stock (h h' : heap) (stock_data_dict : dict ref)
    (weights : dict Z) (portfolio_df combined_volume_df : list (Z * F64.t)) :
  live h stock_data_dict →
  keys stock_data_dict ⊆ keys weights →
  calculate_combined_volume stock_data_dict weights h = (Returns combined_volume_df, h') →
  chart_traces stock_data_dict weights portfolio_df h
  = (Returns
       ((stock_trace Close close_and_vwap h weights <$> stock_data_dict)
          ++ [mkTrace portfolio_df.*1 portfolio_df.*2 "Portfolio" no_customdata],
        (stock_trace Volume volume_only h weights <$> stock_data_dict)
          ++ [mkTrace combined_volume_df.*1 combined_volume_df.*2 "Combined Volume"
                no_customdata]), h').
Proof. apply chart_traces_returns. Qed.

Lemma X18_witness :
  chart_traces (refs_of sample_seriesMap) sample_weights [] sample_heap_with_volume
  = (Returns
       ((stock_trace Close close_and_vwap sample_heap_with_volume sample_weights
           <$> refs_of sample_seriesMap)
          ++ [mkTrace [] [] "Portfolio" no_customdata],
        (stock_trace Volume volume_only sample_heap_with_volume sample_weights
           <$> refs_of sample_seriesMap)
          ++ [mkTrace [1; 2] [F64.of_Z 100; F64.of_Z 100] "Combined Volume" no_customdata]),
     (calculate_combined_volume (refs_of sample_seriesMap) sample_weights
        sample_heap_with_volume).2).
Proof.
  apply (X18_charts_draw_every_stock sample_heap_with_volume _ (refs_of sample_seriesMap)
           sample_weights [] [(1, F64.of_Z 100); (2, F64.of_Z 100)]).
  - repeat constructor; by eexists.
  - by_compute.
  - by vm_compute.
Defined.

(** X19.  The charts need a weight for every stock, where the aggregator
    does not: with a stock that has a series but no weight, the combined
    volume is computed (the stock is left out of the sum) and then the first
    such stock stops the price figure with a [KeyError] on its symbol. *)
Theorem X19_charts_need_a_weight_for_every_stock (h h' : heap) (pre post : dict ref)
    (symbol : string) (r : ref) (weights : dict Z)
    (portfolio_df combined_volume_df : list (Z * F64.t)) :
  live h (pre ++ (symbol, r) :: post) →
  keys pre ⊆ keys weights →
  symbol ∉ keys weights →
  calculate_combined_volume (pre ++ (symbol, r) :: post) weights h
  = (Returns combined_volume_df, h') →
  chart_traces (pre ++ (symbol, r) :: post) weights portfolio_df h
  = (Raises (KeyError symbol), h').
Proof.
  intros Hlive Hpre Hsym Hrun. unfold chart_traces.
  pose proof (aggregate_returns_nonempty _ _ _ _ _ _ Hlive Hrun) as Hne.
  erewrite bind_returns; [|exact Hrun].
  erewrite bind_raises; [done|]. by apply stock_traces_stray.
Qed.

Lemma X19_witness :
  chart_traces ([("A"%string, 0%nat)] ++ ("B"%string, 1%nat) :: []) [("A"%string, 100)] []
    sample_heap_with_volume
  = (Raises (KeyError "B"),
     (calculate_combined_volume ([("A"%string, 0%nat)] ++ ("B"%string, 1%nat) :: [])
        [("A"%string, 100)] sample_heap_with_volume).2).
Proof.
  apply (X19_charts_need_a_weight_for_every_stock sample_heap_with_volume _
           [("A"%string, 0%nat)] [] "B" 1%nat [("A"%string, 100)] []
           [(1, F64.of_Z 100); (2, F64.of_Z 100)]).
  - repeat constructor; by eexists.
  - by_compute.
  - by_compute.
  - by vm_compute.
Defined.

(** ** The dashboard up to its charts *)

Lemma live_weaken (h h' : heap) (d : dict ref) : h ⊆ h' → live h d → live h' d.
Proof.
  intros Hsub Hlive. eapply Forall_impl; [exact Hlive|].
  intros [k r] [df Hdf]. exists df. by eapply lookup_weaken.
Qed.

Lemma frames_weaken (h h' : heap) (d : dict ref) :
  h ⊆ h' → live h d → frames h' d = frames h d.
Proof.
  intros Hsub Hlive. unfold frames. apply Forall_fmap_ext_1.
  eapply Forall_impl; [exact Hlive|].
  intros [k r] Hr. unfold prod_map. cbn [fst snd] in *.
  by rewrite (frame_weaken h h' r Hsub Hr).
Qed.

Lemma unique_labels_weaken (h h' : heap) (d : dict ref) :
  h ⊆ h' → live h d → unique_labels h d → unique_labels h' d.
Proof.
  intros Hsub Hlive Huniq. unfold unique_labels, live in *.
  rewrite Forall_forall in *. intros [k r] Hin.
  specialize (Hlive _ Hin). specialize (Huniq _ Hin). cbn [snd] in *.
  by rewrite (frame_weaken h h' r Hsub Hlive).
Qed.

Lemma well_posed_weaken (h h' : heap) (d : dict ref) (w : dict Z) :
  h ⊆ h' → live h d → well_posed h d w → well_posed h' d w.
Proof.
  intros Hsub Hlive (Hd & Hne & Hcov & Hdate).
  split; [done|]. split; [by eapply all_nonempty_weaken|]. split; [done|].
  by rewrite (frames_weaken h h') by done.
Qed.

(** X20.  In [main] the charts follow the index: when the fetch loop has
    filled the two dictionaries with uniquely dated series and the portfolio
    index has been computed from them, the chart part of the display
    returns too.  The combined volume is computed on the same dictionaries,
    no stock lacks a weight, and each figure shows every fetched stock and
    the composite. *)
Theorem X20_dashboard_charts_follow_the_index
    (get_json : string → Response) (api_key start_date end_date : string)
    (stocks : list Stock) (h h1 h2 : heap)
    (stock_data_dict : dict ref) (weights : dict Z) (errors : list string)
    (portfolio_df : list (Z * F64.t)) :
  fetch_all get_json api_key start_date end_date stocks h
  = (Returns (stock_data_dict, weights, errors), h1) →
  unique_labels h1 stock_data_dict →
  calculate_portfolio_performance stock_data_dict weights h1 = (Returns portfolio_df, h2) →
  ∃ (combined_volume_df : list (Z * F64.t)) (h3 : heap),
    calculate_combined_volume stock_data_dict weights h2 = (Returns combined_volume_df, h3)
    ∧ chart_traces stock_data_dict weights portfolio_df h2
      = (Returns
           ((stock_trace Close close_and_vwap h1 weights <$> stock_data_dict)
              ++ [mkTrace portfolio_df.*1 portfolio_df.*2 "Portfolio" no_customdata],
            (stock_trace Volume volume_only h1 weights <$> stock_data_dict)
              ++ [mkTrace combined_volume_df.*1 combined_volume_df.*2 "Combined Volume"
                    no_customdata]), h3).
Proof.
  intros Hload Huniq Hperf.
  apply fetch_all_loaded in Hload as [Hl _].
  pose proof (loaded_live _ _ _ Hl) as Hlive. destruct Hl as (Hk & Hnd & _).
  assert (Hsub : h1 ⊆ h2).
  { pose proof (preserving_aggregate Close stock_data_dict weights h1) as Hp.
    unfold calculate_portfolio_performance in Hperf. by rewrite Hperf in Hp. }
  assert (Hwp : well_posed h1 stock_data_dict weights).
  { apply (aggregate_returns_iff Close); [done..|]. by exists portfolio_df, h2. }
  pose proof (live_weaken _ _ _ Hsub Hlive) as Hlive2.
  destruct (proj2 (aggregate_returns_iff Volume h2 stock_data_dict weights Hnd Hlive2
                     (unique_labels_weaken _ _ _ Hsub Hlive Huniq))
                  (well_posed_weaken _ _ _ _ Hsub Hlive Hwp)) as (cv & h3 & Hvol).
  exists cv, h3. split; [exact Hvol|].
  rewrite <- !(stock_trace_weaken _ _ h1 h2) by done.
  apply chart_traces_returns; [done| |exact Hvol].
  by rewrite Hk.
Qed.

Lemma X20_witness :
  ∃ (combined_volume_df : list (Z * F64.t)) (h3 : heap),
    calculate_combined_volume [("AAPL"%string, 0%nat); ("MSFT"%string, 1%nat)]
      [("AAPL"%string, 60); ("MSFT"%string, 30)] sample_analysis.2
    = (Returns combined_volume_df, h3)
    ∧ chart_traces [("AAPL"%string, 0%nat); ("MSFT"%string, 1%nat)]
        [("AAPL"%string, 60); ("MSFT"%string, 30)] sample_portfolio sample_analysis.2
      = (Returns
           ((stock_trace Close close_and_vwap sample_load.2
               [("AAPL"%string, 60); ("MSFT"%string, 30)]
               <$> [("AAPL"%string, 0%nat); ("MSFT"%string, 1%nat)])
              ++ [mkTrace sample_portfolio.*1 sample_portfolio.*2 "Portfolio" no_customdata],
            (stock_trace Volume volume_only sample_load.2
               [("AAPL"%string, 60); ("MSFT"%string, 30)]
               <$> [("AAPL"%string, 0%nat); ("MSFT"%string, 1%nat)])
              ++ [mkTrace combined_volume_df.*1 combined_volume_df.*2 "Combined Volume"
                    no_customdata]), h3).
Proof.
  apply (X20_dashboard_charts_follow_the_index sample_server "key" "2024-01-01" "2024-01-31"
           sample_stocks ∅ sample_load.2 sample_analysis.2 _ _
           ["Error fetching data for JUNK: NOT_FOUND"%string]).
  - exact sample_load_returns.
  - repeat constructor; by_compute.
  - by vm_compute.
Defined.
